(** * Remanejamento orçamentário: a shallow embedding of
      [src/src/processador_orcamento.py] (class [ProcessadorOrcamento]).

    Conventions of the embedding.

    - Python floats are modelled as rationals ([Q]); [==] is the equality
      of rationals.  Every double is a rational, so comparisons, [min],
      [max] and [abs] are those of the code, and [round(_, 2)] is the
      rounding to the nearest hundredth, ties to even.  Sums, differences
      and products are exact here where the code rounds each to a double:
      what is stated about a balance is stated through the operations the
      code performs on it, in their order, not through regrouped sums.
    - The ledger [self.ugs_dados] is a list of units, each holding the list
      of its natures.  Python hands nature dicts around by reference and
      mutates them in place; here a nature is designated by its position
      [(unit index, nature index)] in the ledger ([Ref]) and every read goes
      through the current ledger, so aliasing is kept.
    - [self.diagnosticos] (the log) is write-only and is left out.
    - [historico] is a history variable: it remembers, for every record
      appended to [self.remanejamentos], which two natures were passed to
      [registrar_transferencia] and the amount before rounding.  No modelled
      code reads it. *)

From Stdlib Require Import Ascii String QArith Qround Qminmax Qabs Lqa.
From stdpp Require Import base list strings gmap.

Open Scope Q_scope.

(** ** Numbers *)

Definition Qltb (x y : Q) : bool := negb (Qle_bool y x).

(** [round(x, 2)]: nearest multiple of 1/100, ties to the even one. *)
Definition arredondar_inteiro (x : Q) : Z :=
  let f := Qfloor x in
  let r := x - inject_Z f in
  if Qltb r (1#2) then f
  else if Qltb (1#2) r then (f + 1)%Z
  else if Z.even f then f else (f + 1)%Z.

Definition round2 (x : Q) : Q := inject_Z (arredondar_inteiro (x * 100)) / 100.

Fixpoint soma (l : list Q) : Q :=
  match l with
  | [] => 0
  | x :: l' => x + soma l'
  end.

(** ** Strings *)

Fixpoint remover (c : ascii) (s : string) : string :=
  match s with
  | EmptyString => EmptyString
  | String a s' => if Ascii.eqb a c then remover c s' else String a (remover c s')
  end.

(** The white space [str.strip()] removes, among the one-byte characters. *)
Definition espaco_em_branco (a : ascii) : bool :=
  let n := nat_of_ascii a in
  ((9 <=? n) && (n <=? 13) || (28 <=? n) && (n <=? 32))%nat.

Fixpoint lstrip (s : string) : string :=
  match s with
  | EmptyString => EmptyString
  | String a s' => if espaco_em_branco a then lstrip s' else s
  end.

Fixpoint rstrip (s : string) : string :=
  match s with
  | EmptyString => EmptyString
  | String a s' =>
      match rstrip s' with
      | EmptyString => if espaco_em_branco a then EmptyString else String a EmptyString
      | t => String a t
      end
  end.

Definition strip (s : string) : string := rstrip (lstrip s).

(** [codigo.replace('.', '').replace(' ', '').strip()] *)
Definition codigo_limpo (codigo_natureza : string) : string :=
  strip (remover " "%char (remover "."%char codigo_natureza)).

(** ** Data model *)

(** A nature dict.  [necessidade_total] is a key that is absent until
    [identificar_deficits] or a reallocation pass sets it. *)
Record Natureza := {
  codigo : string;
  nome : string;
  saldo_original : Q;
  saldo_atual : Q;
  dois_primeiros_digitos : string;
  fonte : option Z;
  necessidade_total : option Q
}.

Record UG := {
  ug_codigo : string;
  ug_nome : string;
  ug_saldo_total : Q;
  ug_fonte : option Z;
  naturezas : list Natureza
}.

(** The [tipo] argument of [registrar_transferencia]. *)
Inductive Tipo :=
| Interna_unica            (* "Interna (única)" *)
| Interna_mesmos_digitos   (* "Interna (mesmos dígitos)" *)
| Interna                  (* "Interna" *)
| Externa_mesmos_digitos   (* "Externa (mesmos dígitos)" *)
| Externa.                 (* "Externa" *)

(** One element of [self.remanejamentos].  [Fonte] is [None] for the empty
    string the code stores when no fund is found. *)
Record Remanejamento := {
  r_Tipo : Tipo;
  r_Fonte : option Z;
  r_UG_Origem : string;
  r_Natureza_Origem : string;
  r_Nome_Natureza_Origem : string;
  r_UG_Destino : string;
  r_Natureza_Destino : string;
  r_Nome_Natureza_Destino : string;
  r_Valor : Q;
  r_ug_origem : string;
  r_ug_destino : string
}.

Definition Ref : Type := nat * nat.

Record Commit := {
  c_origem : Ref;
  c_destino : Ref;
  c_valor : Q
}.

Record Estado := {
  ugs_dados : list UG;
  remanejamentos : list Remanejamento;
  historico : list Commit
}.

(** ** The ledger as a store *)

Definition obter (ugs : list UG) (r : Ref) : option Natureza :=
  match ugs !! r.1 with
  | Some u => naturezas u !! r.2
  | None => None
  end.

Definition com_naturezas (f : list Natureza → list Natureza) (u : UG) : UG :=
  {| ug_codigo := ug_codigo u; ug_nome := ug_nome u;
     ug_saldo_total := ug_saldo_total u; ug_fonte := ug_fonte u;
     naturezas := f (naturezas u) |}.

Definition alterar (f : Natureza → Natureza) (r : Ref) (ugs : list UG) : list UG :=
  alter (com_naturezas (alter f r.2)) r.1 ugs.

Definition com_saldo_atual (v : Q) (n : Natureza) : Natureza :=
  {| codigo := codigo n; nome := nome n; saldo_original := saldo_original n;
     saldo_atual := v; dois_primeiros_digitos := dois_primeiros_digitos n;
     fonte := fonte n; necessidade_total := necessidade_total n |}.

Definition com_necessidade (v : Q) (n : Natureza) : Natureza :=
  {| codigo := codigo n; nome := nome n; saldo_original := saldo_original n;
     saldo_atual := saldo_atual n; dois_primeiros_digitos := dois_primeiros_digitos n;
     fonte := fonte n; necessidade_total := Some v |}.

(** [nat['saldo_atual'] -= v] and [nat['saldo_atual'] += v]. *)
Definition debitar (v : Q) (r : Ref) (ugs : list UG) : list UG :=
  alterar (λ n, com_saldo_atual (saldo_atual n - v) n) r ugs.

Definition creditar (v : Q) (r : Ref) (ugs : list UG) : list UG :=
  alterar (λ n, com_saldo_atual (saldo_atual n + v) n) r ugs.

Definition definir_necessidade (v : Q) (r : Ref) (st : Estado) : Estado :=
  {| ugs_dados := alterar (com_necessidade v) r (ugs_dados st);
     remanejamentos := remanejamentos st;
     historico := historico st |}.

(** ** Configuration and the engine *)

Definition PERCENTUAL_RESERVA_MINIMA : Q := 20 # 100.
Definition PERCENTUAL_DOACAO_MAXIMA_POR_VEZ : Q := 40 # 100.
Definition PRIORIZAR_DOACAO_UNICA : bool := true.

(** [calcular_capacidade_doacao] *)
Definition calcular_capacidade_doacao (natureza : Natureza) : Q :=
  let saldo_original := saldo_original natureza in
  let saldo_atual := saldo_atual natureza in
  if Qle_bool saldo_atual 0 then 0
  else
    let saldo_minimo := saldo_original * PERCENTUAL_RESERVA_MINIMA in
    let capacidade_maxima := saldo_original - saldo_minimo in
    let doacao_maxima_por_vez := saldo_original * PERCENTUAL_DOACAO_MAXIMA_POR_VEZ in
    let quanto_ja_doou := saldo_original - saldo_atual in
    let quanto_ainda_pode_doar := Qmax 0 (capacidade_maxima - quanto_ja_doou) in
    let capacidade_real := Qmin quanto_ainda_pode_doar doacao_maxima_por_vez in
    let capacidade_real := Qmin capacidade_real (saldo_atual - saldo_minimo) in
    Qmax 0 capacidade_real.

(** Exceptions that end [processar_arquivo], with the state reached. *)
Inductive Excecao :=
| ColunaNaoEncontrada      (* raise Exception("Coluna ... não encontrada ...") *)
| NenhumaUG                (* raise Exception("Nenhuma UG encontrada!") *)
| VariavelNaoAtribuida.    (* UnboundLocalError: valor_transferir *)

Inductive Resultado (A : Type) :=
| Retorna (a : A) (st : Estado)
| Levanta (e : Excecao) (st : Estado).
Arguments Retorna {A} a st.
Arguments Levanta {A} e st.

Definition estado_de {A} (r : Resultado A) : Estado :=
  match r with
  | Retorna _ st => st
  | Levanta _ st => st
  end.

Section Processador.

(** [self.FONTE_PROIBIDA] and [self.NATUREZAS_PROIBIDAS]. *)
Variable FONTE_PROIBIDA : option Z.
Variable NATUREZAS_PROIBIDAS : gset string.

(** [natureza_eh_proibida] *)
Definition natureza_eh_proibida (codigo_natureza : string) : bool :=
  bool_decide (codigo_limpo codigo_natureza ∈ NATUREZAS_PROIBIDAS).

(** [x == self.FONTE_PROIBIDA] on [int | None] values. *)
Definition fonte_eh_proibida (f : option Z) : bool :=
  bool_decide (f = FONTE_PROIBIDA).

(** The fund written in a record: the nature's own, else the fund of the
    first unit whose code is [ug_origem]. *)
Definition fonte_do_registro (ugs : list UG) (ug_origem : string) (n : Natureza) : option Z :=
  match fonte n with
  | Some f => Some f
  | None =>
      match find (λ u, String.eqb (ug_codigo u) ug_origem) ugs with
      | Some u => ug_fonte u
      | None => None
      end
  end.

(** [registrar_transferencia].  The two natures are given by position; a
    position outside the ledger (which no caller passes) leaves the state
    as it is. *)
Definition registrar_transferencia (ug_origem : string) (nat_origem : Ref)
    (ug_destino : string) (nat_destino : Ref) (valor : Q) (tipo : Tipo)
    (st : Estado) : Estado :=
  match obter (ugs_dados st) nat_origem, obter (ugs_dados st) nat_destino with
  | Some o, Some d =>
      if Qle_bool (saldo_original o) 0 then st
      else if Qle_bool 0 (saldo_original d) then st
      else if Qltb (saldo_atual o) valor then st
      else
        let saldo_minimo := saldo_original o * PERCENTUAL_RESERVA_MINIMA in
        let saldo_apos_doacao := saldo_atual o - valor in
        if Qltb saldo_apos_doacao saldo_minimo then st
        else if natureza_eh_proibida (codigo o) then st
        else if natureza_eh_proibida (codigo d) then st
        else
          let registro :=
            {| r_Tipo := tipo;
               r_Fonte := fonte_do_registro (ugs_dados st) ug_origem o;
               r_UG_Origem := ug_origem;
               r_Natureza_Origem := codigo o;
               r_Nome_Natureza_Origem := nome o;
               r_UG_Destino := ug_destino;
               r_Natureza_Destino := codigo d;
               r_Nome_Natureza_Destino := nome d;
               r_Valor := round2 valor;
               r_ug_origem := ug_origem;
               r_ug_destino := ug_destino |} in
          {| ugs_dados := creditar valor nat_destino (debitar valor nat_origem (ugs_dados st));
             remanejamentos := remanejamentos st ++ [registro];
             historico := historico st ++
               [{| c_origem := nat_origem; c_destino := nat_destino; c_valor := valor |}] |}
  | _, _ => st
  end.


(** *** Selecting natures of a unit *)

Fixpoint selecionar_desde (p : Natureza → bool) (i j : nat) (ns : list Natureza) : list Ref :=
  match ns with
  | [] => []
  | n :: ns' =>
      if p n then (i, j) :: selecionar_desde p i (S j) ns'
      else selecionar_desde p i (S j) ns'
  end.

(** [[nat for nat in ug['naturezas'] if p(nat)]], as positions. *)
Definition selecionar (p : Natureza → bool) (i : nat) (u : UG) : list Ref :=
  selecionar_desde p i 0%nat (naturezas u).

(** [nat['fonte'] != self.FONTE_PROIBIDA and not self.natureza_eh_proibida(nat['codigo'])] *)
Definition nao_excluida (n : Natureza) : bool :=
  negb (fonte_eh_proibida (fonte n)) && negb (natureza_eh_proibida (codigo n)).

Definition saldo_de (st : Estado) (r : Ref) : Q :=
  match obter (ugs_dados st) r with
  | Some n => saldo_atual n
  | None => 0
  end.

Definition capacidade_de (st : Estado) (r : Ref) : Q :=
  match obter (ugs_dados st) r with
  | Some n => calcular_capacidade_doacao n
  | None => 0
  end.

Definition digitos_de (st : Estado) (r : Ref) : string :=
  match obter (ugs_dados st) r with
  | Some n => dois_primeiros_digitos n
  | None => EmptyString
  end.

Definition codigo_da_ug (st : Estado) (i : nat) : string :=
  match ugs_dados st !! i with
  | Some u => ug_codigo u
  | None => EmptyString
  end.

(** [nat.get('necessidade_total', abs(nat['saldo_atual']))] *)
Definition necessidade_ou_saldo (n : Natureza) : Q :=
  match necessidade_total n with
  | Some v => v
  | None => Qabs (saldo_atual n)
  end.

(** *** [list.sort(key=..., reverse=True)]: stable, largest key first *)

Fixpoint inserir_desc {A} (chave : A → Q) (x : A) (l : list A) : list A :=
  match l with
  | [] => [x]
  | y :: l' =>
      if Qle_bool (chave y) (chave x) then x :: y :: l'
      else y :: inserir_desc chave x l'
  end.

Fixpoint ordenar_desc {A} (chave : A → Q) (l : list A) : list A :=
  match l with
  | [] => []
  | x :: l' => inserir_desc chave x (ordenar_desc chave l')
  end.

Definition mesmos_digitos (st : Estado) (digitos : string) (s : Ref) : bool :=
  String.eqb (digitos_de st s) digitos.

Definition prioritarias (st : Estado) (digitos : string) (doadoras : list Ref) : list Ref :=
  ordenar_desc (saldo_de st) (List.filter (mesmos_digitos st digitos) doadoras).

Definition secundarias (st : Estado) (digitos : string) (doadoras : list Ref) : list Ref :=
  ordenar_desc (saldo_de st)
    (List.filter (λ s, negb (mesmos_digitos st digitos s)) doadoras).

(** *** [identificar_deficits] *)

Definition deficit_elegivel (n : Natureza) : bool :=
  Qltb (saldo_original n) 0
  && negb (fonte_eh_proibida (fonte n))
  && negb (natureza_eh_proibida (codigo n)).

Definition anotar_deficit (st : Estado) (r : Ref) : Estado :=
  match obter (ugs_dados st) r with
  | Some n => definir_necessidade (Qabs (saldo_original n)) r st
  | None => st
  end.

Definition identificar_deficits_ug (acc : nat * Estado) (i : nat) : nat * Estado :=
  let '(total, st) := acc in
  match ugs_dados st !! i with
  | None => acc
  | Some ug =>
      if fonte_eh_proibida (ug_fonte ug) then acc
      else
        let deficits_ug := selecionar deficit_elegivel i ug in
        ((total + length deficits_ug)%nat, fold_left anotar_deficit deficits_ug st)
  end.

Definition identificar_deficits (st : Estado) : nat * Estado :=
  fold_left identificar_deficits_ug (seq 0 (length (ugs_dados st))) (0%nat, st).

(** *** The donor sweeps *)

(** The sweep used for the same-prefix donors of the internal pass and for
    both sweeps of the external pass: [necessidade_restante -= valor_transferir]
    is inside the loop.  [vt] is the local variable [valor_transferir]
    ([None] while it is unbound). *)
Fixpoint varrer_abatendo (tipo : Tipo) (ug_origem ug_destino : string)
    (nat_deficit : Ref) (doadoras : list Ref)
    (necessidade_restante : Q) (vt : option Q) (st : Estado) : Q * option Q * Estado :=
  match doadoras with
  | [] => (necessidade_restante, vt, st)
  | nat_super :: resto =>
      if Qle_bool necessidade_restante (1#100) then (necessidade_restante, vt, st)
      else
        let capacidade_doacao := capacidade_de st nat_super in
        if Qle_bool capacidade_doacao (1#100) then
          varrer_abatendo tipo ug_origem ug_destino nat_deficit resto
            necessidade_restante vt st
        else
          let valor_transferir := Qmin necessidade_restante capacidade_doacao in
          let st' := registrar_transferencia ug_origem nat_super ug_destino
                       nat_deficit valor_transferir tipo st in
          varrer_abatendo tipo ug_origem ug_destino nat_deficit resto
            (necessidade_restante - valor_transferir) (Some valor_transferir) st'
  end.

(** The sweep over the other-prefix donors of the internal pass (lines
    474-488): the loop body does not touch [necessidade_restante]. *)
Fixpoint varrer_sem_abater (tipo : Tipo) (ug_origem ug_destino : string)
    (nat_deficit : Ref) (doadoras : list Ref)
    (necessidade_restante : Q) (vt : option Q) (st : Estado) : option Q * Estado :=
  match doadoras with
  | [] => (vt, st)
  | nat_super :: resto =>
      if Qle_bool necessidade_restante (1#100) then (vt, st)
      else
        let capacidade_doacao := capacidade_de st nat_super in
        if Qle_bool capacidade_doacao (1#100) then
          varrer_sem_abater tipo ug_origem ug_destino nat_deficit resto
            necessidade_restante vt st
        else
          let valor_transferir := Qmin necessidade_restante capacidade_doacao in
          let st' := registrar_transferencia ug_origem nat_super ug_destino
                       nat_deficit valor_transferir tipo st in
          varrer_sem_abater tipo ug_origem ug_destino nat_deficit resto
            necessidade_restante (Some valor_transferir) st'
  end.

(** *** [remanejamento_interno] *)

(** The body of [for nat_deficit in deficitarias] (lines 417-497). *)
Definition cobrir_deficit_interno (ug_cod : string) (superavitarias : list Ref)
    (nat_deficit : Ref) (vt : option Q) (st : Estado) : Resultado (option Q) :=
  match obter (ugs_dados st) nat_deficit with
  | None => Retorna vt st
  | Some nd =>
      let necessidade_restante := necessidade_ou_saldo nd in
      if Qle_bool necessidade_restante (1#100) then Retorna vt st
      else
        let digitos_deficit := dois_primeiros_digitos nd in
        let doadoras_prioritarias := prioritarias st digitos_deficit superavitarias in
        let doadoras_secundarias := secundarias st digitos_deficit superavitarias in
        let doadora_unica :=
          if PRIORIZAR_DOACAO_UNICA then
            find (λ nat_super, Qle_bool necessidade_restante (capacidade_de st nat_super))
                 (doadoras_prioritarias ++ doadoras_secundarias)
          else None in
        match doadora_unica with
        | Some nat_super =>
            let st1 := registrar_transferencia ug_cod nat_super ug_cod nat_deficit
                         necessidade_restante Interna_unica st in
            Retorna vt (definir_necessidade (Qmax 0 0) nat_deficit st1)
        | None =>
            let '(necessidade_restante, vt1, st1) :=
              varrer_abatendo Interna_mesmos_digitos ug_cod ug_cod nat_deficit
                doadoras_prioritarias necessidade_restante vt st in
            let '(vt2, st2) :=
              varrer_sem_abater Interna ug_cod ug_cod nat_deficit
                doadoras_secundarias necessidade_restante vt1 st1 in
            (* line 491, after the loop: necessidade_restante -= valor_transferir *)
            match vt2 with
            | None => Levanta VariavelNaoAtribuida st2
            | Some valor_transferir =>
                let necessidade_restante := necessidade_restante - valor_transferir in
                Retorna vt2
                  (definir_necessidade (Qmax 0 necessidade_restante) nat_deficit st2)
            end
        end
  end.

Fixpoint cobrir_deficits_internos (ug_cod : string) (superavitarias deficitarias : list Ref)
    (vt : option Q) (st : Estado) : Resultado (option Q) :=
  match deficitarias with
  | [] => Retorna vt st
  | nat_deficit :: resto =>
      match cobrir_deficit_interno ug_cod superavitarias nat_deficit vt st with
      | Retorna vt' st' => cobrir_deficits_internos ug_cod superavitarias resto vt' st'
      | Levanta e st' => Levanta e st'
      end
  end.

(** The body of [for ug in self.ugs_dados] (lines 379-497). *)
Definition remanejamento_interno_ug (i : nat) (vt : option Q) (st : Estado)
    : Resultado (option Q) :=
  match ugs_dados st !! i with
  | None => Retorna vt st
  | Some ug =>
      if fonte_eh_proibida (ug_fonte ug) then Retorna vt st
      else
        let deficitarias :=
          selecionar (λ n, Qltb (saldo_atual n) 0 && nao_excluida n) i ug in
        let superavitarias :=
          selecionar (λ n, Qltb 0 (saldo_atual n) && nao_excluida n) i ug in
        match deficitarias, superavitarias with
        | [], _ => Retorna vt st
        | _, [] => Retorna vt st
        | _, _ => cobrir_deficits_internos (ug_codigo ug) superavitarias deficitarias vt st
        end
  end.

Fixpoint remanejamento_interno_desde (indices : list nat) (vt : option Q) (st : Estado)
    : Resultado (option Q) :=
  match indices with
  | [] => Retorna vt st
  | i :: resto =>
      match remanejamento_interno_ug i vt st with
      | Retorna vt' st' => remanejamento_interno_desde resto vt' st'
      | Levanta e st' => Levanta e st'
      end
  end.

Definition remanejamento_interno (st : Estado) : Resultado unit :=
  match remanejamento_interno_desde (seq 0 (length (ugs_dados st))) None st with
  | Retorna _ st' => Retorna tt st'
  | Levanta e st' => Levanta e st'
  end.

(** *** [remanejamento_externo] *)

(** An element of [ugs_deficitarias]; ['ug'] is the unit's position. *)
Record InfoDeficit := {
  id_ug : nat;
  id_fonte : option Z;
  id_necessidade_total : Q;
  id_naturezas_deficit : list Ref
}.

(** An element of [ugs_doadoras]. *)
Record InfoDoadora := {
  dd_ug : nat;
  dd_fonte : option Z;
  dd_superavit_total : Q;
  dd_naturezas_super : list Ref
}.

Definition deficit_residual (n : Natureza) : bool :=
  Qltb (saldo_original n) 0
  && Qltb (1#100) (match necessidade_total n with Some v => v | None => 0 end)
  && negb (fonte_eh_proibida (fonte n))
  && negb (natureza_eh_proibida (codigo n)).

Definition info_deficit (st : Estado) (i : nat) (ug : UG) : option InfoDeficit :=
  if fonte_eh_proibida (ug_fonte ug) then None
  else
    match selecionar deficit_residual i ug with
    | [] => None
    | deficits =>
        Some {| id_ug := i; id_fonte := ug_fonte ug;
                id_necessidade_total :=
                  soma (omap (λ r, necessidade_ou_saldo <$> obter (ugs_dados st) r) deficits);
                id_naturezas_deficit := deficits |}
    end.

Definition ugs_deficitarias (st : Estado) : list InfoDeficit :=
  omap id (imap (info_deficit st) (ugs_dados st)).

Definition info_doadora (st : Estado) (ug_deficit : nat) (fonte_deficitaria : option Z)
    (k : nat) (ug : UG) : option InfoDoadora :=
  if fonte_eh_proibida (ug_fonte ug) then None
  else if negb (bool_decide (ug_fonte ug = fonte_deficitaria)) then None
  else if String.eqb (ug_codigo ug) (codigo_da_ug st ug_deficit) then None
  else
    match selecionar (λ n, Qltb 0 (saldo_atual n) && nao_excluida n) k ug with
    | [] => None
    | naturezas_super =>
        Some {| dd_ug := k; dd_fonte := ug_fonte ug;
                dd_superavit_total := soma (map (saldo_de st) naturezas_super);
                dd_naturezas_super := naturezas_super |}
    end.

Definition ugs_doadoras (st : Estado) (ug_deficit : nat) (fonte_deficitaria : option Z)
    : list InfoDoadora :=
  omap id (imap (info_doadora st ug_deficit fonte_deficitaria) (ugs_dados st)).

(** [for ug_doadora_info in ugs_doadoras] (lines 593-648). *)
Fixpoint percorrer_doadoras (ug_destino : string) (nat_deficit : Ref) (digitos_deficit : string)
    (doadoras : list InfoDoadora) (necessidade_restante : Q) (st : Estado) : Q * Estado :=
  match doadoras with
  | [] => (necessidade_restante, st)
  | ud :: resto =>
      if Qle_bool necessidade_restante (1#100) then (necessidade_restante, st)
      else
        let ug_origem := codigo_da_ug st (dd_ug ud) in
        let pri := prioritarias st digitos_deficit (dd_naturezas_super ud) in
        let sec := secundarias st digitos_deficit (dd_naturezas_super ud) in
        let '(necessidade_restante, vt, st1) :=
          varrer_abatendo Externa_mesmos_digitos ug_origem ug_destino nat_deficit
            pri necessidade_restante None st in
        let '(necessidade_restante, _, st2) :=
          varrer_abatendo Externa ug_origem ug_destino nat_deficit
            sec necessidade_restante vt st1 in
        percorrer_doadoras ug_destino nat_deficit digitos_deficit resto
          necessidade_restante st2
  end.

(** The body of [for nat_deficit in ug_deficit_info['naturezas_deficit']]. *)
Definition cobrir_deficit_externo (ug_destino : string) (doadoras : list InfoDoadora)
    (st : Estado) (nat_deficit : Ref) : Estado :=
  match obter (ugs_dados st) nat_deficit with
  | None => st
  | Some nd =>
      let necessidade_restante := necessidade_ou_saldo nd in
      if Qle_bool necessidade_restante (1#100) then st
      else
        let '(necessidade_restante, st') :=
          percorrer_doadoras ug_destino nat_deficit (dois_primeiros_digitos nd)
            doadoras necessidade_restante st in
        definir_necessidade (Qmax 0 necessidade_restante) nat_deficit st'
  end.

(** The body of [for ug_deficit_info in ugs_deficitarias] (lines 537-653). *)
Definition remanejamento_externo_ug (st : Estado) (info : InfoDeficit) : Estado :=
  match ugs_doadoras st (id_ug info) (id_fonte info) with
  | [] => st
  | doadoras =>
      let doadoras := ordenar_desc dd_superavit_total doadoras in
      fold_left (cobrir_deficit_externo (codigo_da_ug st (id_ug info)) doadoras)
        (id_naturezas_deficit info) st
  end.

Definition remanejamento_externo (st : Estado) : Estado :=
  fold_left remanejamento_externo_ug (ugs_deficitarias st) st.

(** *** [validar_resultado] *)

Record Validacoes := {
  nenhum_saldo_negativo : bool;
  somas_conferem : bool
}.

(** The natures for which line 741 sets [tem_negativo]. *)
Definition marca_negativo (nat : Natureza) : bool :=
  let diferenca := saldo_atual nat - saldo_original nat in
  Qltb (1#100) (Qabs diferenca)
  && Qltb (saldo_original nat) 0
  && Qltb (saldo_atual nat) (- (1#100)).

Definition validar_resultado (st : Estado) : Validacoes :=
  let tem_negativo :=
    existsb (λ ug, existsb marca_negativo (naturezas ug)) (ugs_dados st) in
  {| nenhum_saldo_negativo := negb tem_negativo;
     somas_conferem := (0 <? length (remanejamentos st))%nat |}.

(** *** [gerar_aba_remanejamento]: consolidation *)

Definition Chave : Type := option Z * string * string * string * string.

Definition chave_de (rem : Remanejamento) : Chave :=
  (r_Fonte rem, r_UG_Origem rem, r_Natureza_Origem rem,
   r_UG_Destino rem, r_Natureza_Destino rem).

(** A row of the consolidated sheet. *)
Record Consolidado := {
  k_Tipo : Tipo;
  k_Fonte : option Z;
  k_UG_Origem : string;
  k_Natureza_Origem : string;
  k_Nome_Natureza_Origem : string;
  k_UG_Destino : string;
  k_Natureza_Destino : string;
  k_Nome_Natureza_Destino : string;
  k_Valor : Q
}.

Definition primeira_ocorrencia (rem : Remanejamento) : Consolidado :=
  {| k_Tipo := r_Tipo rem; k_Fonte := r_Fonte rem;
     k_UG_Origem := r_UG_Origem rem; k_Natureza_Origem := r_Natureza_Origem rem;
     k_Nome_Natureza_Origem := r_Nome_Natureza_Origem rem;
     k_UG_Destino := r_UG_Destino rem; k_Natureza_Destino := r_Natureza_Destino rem;
     k_Nome_Natureza_Destino := r_Nome_Natureza_Destino rem;
     k_Valor := r_Valor rem |}.

Definition somar_valor (v : Q) (c : Consolidado) : Consolidado :=
  {| k_Tipo := k_Tipo c; k_Fonte := k_Fonte c;
     k_UG_Origem := k_UG_Origem c; k_Natureza_Origem := k_Natureza_Origem c;
     k_Nome_Natureza_Origem := k_Nome_Natureza_Origem c;
     k_UG_Destino := k_UG_Destino c; k_Natureza_Destino := k_Natureza_Destino c;
     k_Nome_Natureza_Destino := k_Nome_Natureza_Destino c;
     k_Valor := k_Valor c + v |}.

(** The dict [consolidados] keeps insertion order: an association list
    whose keys are pairwise distinct. *)
Fixpoint acumular (chave : Chave) (rem : Remanejamento)
    (consolidados : list (Chave * Consolidado)) : list (Chave * Consolidado) :=
  match consolidados with
  | [] => [(chave, primeira_ocorrencia rem)]
  | (k, c) :: resto =>
      if bool_decide (k = chave) then (k, somar_valor (r_Valor rem) c) :: resto
      else (k, c) :: acumular chave rem resto
  end.

Definition consolidar (rems : list Remanejamento) : list (Chave * Consolidado) :=
  fold_left (λ consolidados rem, acumular (chave_de rem) rem consolidados) rems [].

Definition gerar_aba_remanejamento (st : Estado) : list Consolidado * Estado :=
  match remanejamentos st with
  | [] => ([], st)
  | _ => ((consolidar (remanejamentos st)).*2, st)
  end.

(** *** [identificar_estrutura] and [processar_arquivo] *)

(** A sheet row after classification of its column B, which must match
    six digits, a dash and a name: a unit row when the name equals its
    upper-case form ([nome == nome.upper()]), a nature row when it does not
    (the name has a lower-case letter), a row of neither kind when the
    pattern does not match.  [saldo] and [fonte] are what
    [extrair_valor_coluna] returns for the balance and fund columns. *)
Inductive Linha :=
| LinhaUG (codigo nome : string) (saldo fonte : Q)
| LinhaNatureza (codigo nome : string) (saldo fonte : Q)
| LinhaOutra.

(** [int(fonte) if fonte > 0 else alternativa] *)
Definition fonte_ou (fonte : Q) (alternativa : option Z) : option Z :=
  if Qltb 0 fonte then Some (Qfloor fonte) else alternativa.

Definition nova_ug (codigo nome : string) (saldo fonte : Q) : UG :=
  {| ug_codigo := codigo; ug_nome := nome; ug_saldo_total := saldo;
     ug_fonte := fonte_ou fonte None; naturezas := [] |}.

Definition nova_natureza (ug_atual : UG) (codigo nome : string) (saldo fonte : Q) : Natureza :=
  {| codigo := codigo; nome := nome; saldo_original := saldo; saldo_atual := saldo;
     dois_primeiros_digitos := substring 0 2 codigo;
     fonte := fonte_ou fonte (ug_fonte ug_atual);
     necessidade_total := None |}.

(** [ug_atual] is the unit appended last, when there is one. *)
Definition identificar_linha (ugs : list UG) (linha : Linha) : list UG :=
  match linha with
  | LinhaUG codigo nome saldo fonte => ugs ++ [nova_ug codigo nome saldo fonte]
  | LinhaNatureza codigo nome saldo fonte =>
      match last ugs with
      | None => ugs
      | Some ug_atual =>
          alter (com_naturezas (λ ns, ns ++ [nova_natureza ug_atual codigo nome saldo fonte]))
                (pred (length ugs)) ugs
      end
  | LinhaOutra => ugs
  end.

Definition identificar_estrutura (linhas : list Linha) : list UG :=
  fold_left identificar_linha linhas [].

Record Estatisticas := {
  total_ugs : nat;
  total_deficits : nat;
  remanejamentos_internos : nat;
  remanejamentos_externos : nat
}.

Record Saida := {
  estatisticas : Estatisticas;
  validacoes : Validacoes;
  aba_remanejamento : list Consolidado
}.

Definition estado_inicial (linhas : list Linha) : Estado :=
  {| ugs_dados := identificar_estrutura linhas; remanejamentos := []; historico := [] |}.

(** [processar_arquivo], from step 2 on: [coluna_saldo] is what
    [encontrar_coluna_saldo] found in the header. *)
Definition processar_arquivo (coluna_saldo : option nat) (linhas : list Linha)
    : Resultado Saida :=
  let st0 := {| ugs_dados := []; remanejamentos := []; historico := [] |} in
  match coluna_saldo with
  | None => Levanta ColunaNaoEncontrada st0
  | Some _ =>
      let st := estado_inicial linhas in
      if (length (ugs_dados st) =? 0)%nat then Levanta NenhumaUG st
      else
        let '(deficits_totais, st) := identificar_deficits st in
        match remanejamento_interno st with
        | Levanta e st => Levanta e st
        | Retorna _ st =>
            let st := remanejamento_externo st in
            let validacoes := validar_resultado st in
            let '(aba, st) := gerar_aba_remanejamento st in
            Retorna
              {| estatisticas :=
                   {| total_ugs := length (ugs_dados st);
                      total_deficits := deficits_totais;
                      remanejamentos_internos :=
                        length (List.filter (λ r, String.eqb (r_ug_origem r) (r_ug_destino r))
                                  (remanejamentos st));
                      remanejamentos_externos :=
                        length (List.filter (λ r, negb (String.eqb (r_ug_origem r) (r_ug_destino r)))
                                  (remanejamentos st)) |};
                 validacoes := validacoes;
                 aba_remanejamento := aba |}
              st
        end
  end.

(** * Properties *)

(** ** Comparisons *)

Lemma Qltb_lt (x y : Q) : Qltb x y = true ↔ x < y.
Proof.
  unfold Qltb. rewrite negb_true_iff, <- not_true_iff_false, Qle_bool_iff.
  split; [apply Qnot_le_lt | apply Qlt_not_le].
Qed.

Lemma Qltb_ge (x y : Q) : Qltb x y = false ↔ y <= x.
Proof.
  unfold Qltb. rewrite negb_false_iff, Qle_bool_iff. reflexivity.
Qed.

Lemma Qle_bool_gt (x y : Q) : Qle_bool x y = false ↔ y < x.
Proof.
  rewrite <- not_true_iff_false, Qle_bool_iff.
  split; [apply Qnot_le_lt | apply Qlt_not_le].
Qed.

(** ** The ledger as a store: reads after writes *)

Lemma obter_alterar_mesma (f : Natureza → Natureza) (r : Ref) (ugs : list UG) (n : Natureza) :
  obter ugs r = Some n → obter (alterar f r ugs) r = Some (f n).
Proof.
  unfold obter, alterar. destruct r as [i j]; simpl.
  rewrite list_lookup_alter_eq.
  destruct (ugs !! i) as [u|]; simpl; [|discriminate].
  intros H. rewrite list_lookup_alter_eq, H. reflexivity.
Qed.

Lemma obter_alterar_outra (f : Natureza → Natureza) (r r' : Ref) (ugs : list UG) :
  r ≠ r' → obter (alterar f r ugs) r' = obter ugs r'.
Proof.
  unfold obter, alterar. destruct r as [i j], r' as [i' j']; simpl. intros Hne.
  destruct (decide (i = i')) as [->|Hi].
  - rewrite list_lookup_alter_eq.
    destruct (ugs !! i') as [u|]; simpl; [|reflexivity].
    apply list_lookup_alter_ne. congruence.
  - rewrite list_lookup_alter_ne by done. reflexivity.
Qed.

Lemma obter_alterar (f : Natureza → Natureza) (r r' : Ref) (ugs : list UG) :
  obter (alterar f r ugs) r' =
  if decide (r = r') then f <$> obter ugs r' else obter ugs r'.
Proof.
  destruct (decide (r = r')) as [->|Hne].
  - destruct (obter ugs r') as [n|] eqn:E.
    + simpl. apply obter_alterar_mesma, E.
    + simpl. unfold obter, alterar in *. destruct r' as [i j]; simpl in *.
      rewrite list_lookup_alter_eq.
      destruct (ugs !! i) as [u|]; simpl; [|reflexivity].
      rewrite list_lookup_alter_eq, E. reflexivity.
  - apply obter_alterar_outra, Hne.
Qed.

(** ** C1: the checks before a commit *)

Lemma proibida_sse (c : string) :
  natureza_eh_proibida c = true ↔ codigo_limpo c ∈ NATUREZAS_PROIBIDAS.
Proof. unfold natureza_eh_proibida. apply bool_decide_eq_true. Qed.

Lemma nao_proibida_sse (c : string) :
  natureza_eh_proibida c = false ↔ codigo_limpo c ∉ NATUREZAS_PROIBIDAS.
Proof. unfold natureza_eh_proibida. apply bool_decide_eq_false. Qed.

(** The rejection condition of [registrar_transferencia], as the claim lists it. *)
Definition rejeitada (o d : Natureza) (valor : Q) : Prop :=
  saldo_original o <= 0
  ∨ 0 <= saldo_original d
  ∨ saldo_atual o < valor
  ∨ saldo_atual o - valor < saldo_original o * (20 # 100)
  ∨ codigo_limpo (codigo o) ∈ NATUREZAS_PROIBIDAS
  ∨ codigo_limpo (codigo d) ∈ NATUREZAS_PROIBIDAS.

Lemma registrar_rejeita ug_origem nat_origem ug_destino nat_destino valor tipo st o d :
  obter (ugs_dados st) nat_origem = Some o →
  obter (ugs_dados st) nat_destino = Some d →
  rejeitada o d valor →
  registrar_transferencia ug_origem nat_origem ug_destino nat_destino valor tipo st = st.
Proof.
  intros Ho Hd Hrej. unfold registrar_transferencia. rewrite Ho, Hd.
  destruct (Qle_bool (saldo_original o) 0) eqn:E1; [reflexivity|].
  destruct (Qle_bool 0 (saldo_original d)) eqn:E2; [reflexivity|].
  destruct (Qltb (saldo_atual o) valor) eqn:E3; [reflexivity|].
  destruct (Qltb (saldo_atual o - valor) (saldo_original o * PERCENTUAL_RESERVA_MINIMA)) eqn:E4;
    [reflexivity|].
  destruct (natureza_eh_proibida (codigo o)) eqn:E5; [reflexivity|].
  destruct (natureza_eh_proibida (codigo d)) eqn:E6; [reflexivity|].
  exfalso.
  apply Qle_bool_gt in E1, E2. apply Qltb_ge in E3, E4.
  apply nao_proibida_sse in E5, E6.
  unfold PERCENTUAL_RESERVA_MINIMA in E4.
  destruct Hrej as [H|[H|[H|[H|[H|H]]]]]; try contradiction; lra.
Qed.

Lemma registrar_aceita ug_origem nat_origem ug_destino nat_destino valor tipo st o d :
  obter (ugs_dados st) nat_origem = Some o →
  obter (ugs_dados st) nat_destino = Some d →
  ¬ rejeitada o d valor →
  registrar_transferencia ug_origem nat_origem ug_destino nat_destino valor tipo st =
  {| ugs_dados := creditar valor nat_destino (debitar valor nat_origem (ugs_dados st));
     remanejamentos := remanejamentos st ++
       [{| r_Tipo := tipo;
           r_Fonte := fonte_do_registro (ugs_dados st) ug_origem o;
           r_UG_Origem := ug_origem;
           r_Natureza_Origem := codigo o;
           r_Nome_Natureza_Origem := nome o;
           r_UG_Destino := ug_destino;
           r_Natureza_Destino := codigo d;
           r_Nome_Natureza_Destino := nome d;
           r_Valor := round2 valor;
           r_ug_origem := ug_origem;
           r_ug_destino := ug_destino |}];
     historico := historico st ++
       [{| c_origem := nat_origem; c_destino := nat_destino; c_valor := valor |}] |}.
Proof.
  intros Ho Hd Hrej. unfold registrar_transferencia. rewrite Ho, Hd.
  unfold rejeitada in Hrej.
  destruct (Qle_bool (saldo_original o) 0) eqn:E1.
  { apply Qle_bool_iff in E1. tauto. }
  destruct (Qle_bool 0 (saldo_original d)) eqn:E2.
  { apply Qle_bool_iff in E2. tauto. }
  destruct (Qltb (saldo_atual o) valor) eqn:E3.
  { apply Qltb_lt in E3. tauto. }
  destruct (Qltb (saldo_atual o - valor) (saldo_original o * PERCENTUAL_RESERVA_MINIMA)) eqn:E4.
  { apply Qltb_lt in E4. unfold PERCENTUAL_RESERVA_MINIMA in E4. tauto. }
  destruct (natureza_eh_proibida (codigo o)) eqn:E5.
  { apply proibida_sse in E5. tauto. }
  destruct (natureza_eh_proibida (codigo d)) eqn:E6.
  { apply proibida_sse in E6. tauto. }
  reflexivity.
Qed.

Lemma rejeitada_dec (o d : Natureza) (valor : Q) :
  rejeitada o d valor ∨ ¬ rejeitada o d valor.
Proof.
  unfold rejeitada.
  destruct (Qlt_le_dec 0 (saldo_original o)); [|tauto].
  destruct (Qlt_le_dec (saldo_original d) 0); [|tauto].
  destruct (Qlt_le_dec (saldo_atual o) valor); [tauto|].
  destruct (Qlt_le_dec (saldo_atual o - valor) (saldo_original o * (20 # 100))); [tauto|].
  destruct (decide (codigo_limpo (codigo o) ∈ NATUREZAS_PROIBIDAS)); [tauto|].
  destruct (decide (codigo_limpo (codigo d) ∈ NATUREZAS_PROIBIDAS)); [tauto|].
  right. intros [H|[H|[H|[H|[H|H]]]]]; try contradiction; lra.
Qed.

(** C1.  A call of [registrar_transferencia] on two natures of the ledger:
    when the source's original balance is not positive, or the destination's
    is not negative, or the amount exceeds the source's current balance, or
    the source would fall below 20% of its original balance, or one of the
    two codes is prohibited, the state is returned as it was (no balance
    changed, no record appended); otherwise the source's current balance
    decreases by the amount, the destination's increases by it, every other
    nature is untouched, and exactly one record is appended, whose [Valor] is
    the amount rounded to two decimals. *)
Theorem C1_registrar_transferencia
    ug_origem nat_origem ug_destino nat_destino valor tipo st o d
    (Ho : obter (ugs_dados st) nat_origem = Some o)
    (Hd : obter (ugs_dados st) nat_destino = Some d) :
  let st' := registrar_transferencia ug_origem nat_origem ug_destino nat_destino
               valor tipo st in
  (rejeitada o d valor → st' = st)
  ∧ (¬ rejeitada o d valor →
       (∃ o', obter (ugs_dados st') nat_origem = Some o'
              ∧ saldo_atual o' = saldo_atual o - valor
              ∧ saldo_original o' = saldo_original o)
       ∧ (∃ d', obter (ugs_dados st') nat_destino = Some d'
                ∧ saldo_atual d' = saldo_atual d + valor
                ∧ saldo_original d' = saldo_original d)
       ∧ (∀ r, r ≠ nat_origem → r ≠ nat_destino →
               obter (ugs_dados st') r = obter (ugs_dados st) r)
       ∧ (∃ registro, remanejamentos st' = remanejamentos st ++ [registro]
                      ∧ r_Valor registro = round2 valor
                      ∧ r_Natureza_Origem registro = codigo o
                      ∧ r_Natureza_Destino registro = codigo d)).
Proof.
  intros st'. split.
  - intros Hrej. subst st'. eapply registrar_rejeita; eauto.
  - intros Hok. subst st'.
    rewrite (registrar_aceita _ _ _ _ _ _ _ _ _ Ho Hd Hok). simpl.
    assert (Hne : nat_origem ≠ nat_destino).
    { intros ->. rewrite Ho in Hd. injection Hd as ->.
      apply Hok. unfold rejeitada.
      destruct (Qlt_le_dec 0 (saldo_original d)); [right; left; lra | left; lra]. }
    unfold creditar, debitar. repeat split.
    + eexists. rewrite obter_alterar_outra by congruence.
      split; [apply obter_alterar_mesma, Ho|]. split; reflexivity.
    + eexists. split.
      * apply obter_alterar_mesma. rewrite obter_alterar_outra by congruence. apply Hd.
      * split; reflexivity.
    + intros r Hr1 Hr2. rewrite !obter_alterar_outra by congruence. reflexivity.
    + eexists. repeat split.
Qed.

(** ** C4: donation capacity *)

Ltac caso_max a b :=
  let m := fresh "m" in
  let Hm := fresh "Hm" in
  pose proof (Q.max_spec a b) as Hm; set (m := Qmax a b) in *; clearbody m;
  destruct Hm as [[? ?]|[? ?]].

Ltac caso_min a b :=
  let m := fresh "m" in
  let Hm := fresh "Hm" in
  pose proof (Q.min_spec a b) as Hm; set (m := Qmin a b) in *; clearbody m;
  destruct Hm as [[? ?]|[? ?]].

Ltac casos_minmax :=
  repeat match goal with
  | |- context [Qmax ?a ?b] => caso_max a b
  | |- context [Qmin ?a ?b] => caso_min a b
  | _ : context [Qmax ?a ?b] |- _ => caso_max a b
  | _ : context [Qmin ?a ?b] |- _ => caso_min a b
  end.

Lemma capacidade_nao_negativa (n : Natureza) : 0 <= calcular_capacidade_doacao n.
Proof.
  unfold calcular_capacidade_doacao.
  destruct (Qle_bool (saldo_atual n) 0); [lra|]. apply Q.le_max_l.
Qed.

Lemma capacidade_respeita_reserva (n : Natureza) :
  0 < calcular_capacidade_doacao n →
  calcular_capacidade_doacao n <= saldo_atual n - saldo_original n * (20 # 100).
Proof.
  unfold calcular_capacidade_doacao, PERCENTUAL_RESERVA_MINIMA.
  destruct (Qle_bool (saldo_atual n) 0); [lra|].
  casos_minmax; lra.
Qed.

(** C4 (as amended).  [calcular_capacidade_doacao] returns 0 when the current
    balance is not positive and otherwise the value of the claim's formula;
    the result is never negative; and it does not exceed 40% of the original
    balance whenever that original balance is not negative. *)
Theorem C4_capacidade_doacao (n : Natureza) :
  let so := saldo_original n in
  let sa := saldo_atual n in
  (sa <= 0 → calcular_capacidade_doacao n = 0)
  ∧ (0 < sa →
     calcular_capacidade_doacao n ==
       Qmax 0 (Qmin (Qmin (Qmax 0 ((so - (20#100) * so) - (so - sa))) ((40#100) * so))
                    (sa - (20#100) * so)))
  ∧ 0 <= calcular_capacidade_doacao n
  ∧ (0 <= so → calcular_capacidade_doacao n <= (40#100) * so).
Proof.
  intros so sa. subst so sa. repeat split.
  - intros H. unfold calcular_capacidade_doacao.
    apply Qle_bool_iff in H. rewrite H. reflexivity.
  - intros H. unfold calcular_capacidade_doacao.
    apply Qle_bool_gt in H. rewrite H.
    unfold PERCENTUAL_RESERVA_MINIMA, PERCENTUAL_DOACAO_MAXIMA_POR_VEZ.
    casos_minmax; lra.
  - apply capacidade_nao_negativa.
  - intros H. unfold calcular_capacidade_doacao.
    unfold PERCENTUAL_RESERVA_MINIMA, PERCENTUAL_DOACAO_MAXIMA_POR_VEZ.
    destruct (Qle_bool (saldo_atual n) 0); [lra|].
    casos_minmax; lra.
Qed.

(** ** What a run never changes *)

(** A nature without its two mutable fields, and the ledger of such natures:
    codes, names, funds and original balances. *)
Definition esqueleto_nat (n : Natureza) : Natureza :=
  {| codigo := codigo n; nome := nome n; saldo_original := saldo_original n;
     saldo_atual := 0; dois_primeiros_digitos := dois_primeiros_digitos n;
     fonte := fonte n; necessidade_total := None |}.

Definition esqueleto (ugs : list UG) : list UG :=
  com_naturezas (fmap esqueleto_nat) <$> ugs.

Lemma esqueleto_alterar (f : Natureza → Natureza) (r : Ref) (ugs : list UG) :
  (∀ n, esqueleto_nat (f n) = esqueleto_nat n) →
  esqueleto (alterar f r ugs) = esqueleto ugs.
Proof.
  intros Hf. unfold esqueleto, alterar.
  rewrite (list_fmap_alter _ _ id).
  - apply list_alter_id. reflexivity.
  - apply Forall_forall. intros u _. unfold com_naturezas; simpl. f_equal.
    rewrite (list_fmap_alter _ _ id).
    + apply list_alter_id. reflexivity.
    + apply Forall_forall. intros n _. apply Hf.
Qed.

Lemma esqueleto_lookup (ugs : list UG) (i : nat) :
  esqueleto ugs !! i = com_naturezas (fmap esqueleto_nat) <$> ugs !! i.
Proof. unfold esqueleto. apply list_lookup_fmap. Qed.

Lemma obter_esqueleto (ugs : list UG) (r : Ref) :
  obter (esqueleto ugs) r = esqueleto_nat <$> obter ugs r.
Proof.
  unfold obter. rewrite esqueleto_lookup.
  destruct (ugs !! r.1) as [u|]; simpl; [|reflexivity].
  apply list_lookup_fmap.
Qed.

Lemma esqueleto_definir_necessidade (v : Q) (r : Ref) (st : Estado) :
  esqueleto (ugs_dados (definir_necessidade v r st)) = esqueleto (ugs_dados st).
Proof. simpl. apply esqueleto_alterar. reflexivity. Qed.

Lemma esqueleto_registrar ug_o o ug_d d v t (st : Estado) :
  esqueleto (ugs_dados (registrar_transferencia ug_o o ug_d d v t st)) =
  esqueleto (ugs_dados st).
Proof.
  unfold registrar_transferencia.
  repeat match goal with
         | |- context [match ?x with _ => _ end] => destruct x; try reflexivity
         end.
  simpl. unfold creditar, debitar.
  rewrite !esqueleto_alterar; reflexivity.
Qed.

(** A nature that the passes may use: it sits at position [r] of a unit
    whose code is [cod] and whose fund is not the prohibited one, and it is
    itself neither on the prohibited fund nor a prohibited nature. *)
Definition elegivel (E : list UG) (cod : string) (r : Ref) : Prop :=
  ∃ u n, E !! r.1 = Some u ∧ naturezas u !! r.2 = Some n
         ∧ ug_codigo u = cod
         ∧ fonte_eh_proibida (ug_fonte u) = false
         ∧ nao_excluida n = true.

Lemma selecionar_desde_elem (p : Natureza → bool) (i j : nat) (ns : list Natureza) (r : Ref) :
  r ∈ selecionar_desde p i j ns →
  r.1 = i ∧ ∃ k n, r.2 = (j + k)%nat ∧ ns !! k = Some n ∧ p n = true.
Proof.
  revert j. induction ns as [|n ns IH]; intros j; simpl.
  - intros H. inversion H.
  - destruct (p n) eqn:Hp.
    + intros H. apply elem_of_cons in H as [->|H].
      * split; [reflexivity|]. exists 0%nat, n. simpl.
        rewrite Nat.add_0_r. auto.
      * apply IH in H as [H1 (k & n' & H2 & H3 & H4)].
        split; [exact H1|]. exists (S k), n'. simpl.
        rewrite H2. split; [lia|auto].
    + intros H. apply IH in H as [H1 (k & n' & H2 & H3 & H4)].
      split; [exact H1|]. exists (S k), n'. simpl.
      rewrite H2. split; [lia|auto].
Qed.

Lemma selecionar_elem (p : Natureza → bool) (i : nat) (u : UG) (r : Ref) :
  r ∈ selecionar p i u →
  r.1 = i ∧ ∃ n, naturezas u !! r.2 = Some n ∧ p n = true.
Proof.
  intros H. apply selecionar_desde_elem in H as [H1 (k & n & H2 & H3 & H4)].
  split; [exact H1|]. exists n. simpl in H2. rewrite H2. auto.
Qed.

Lemma selecionar_elegivel (p : Natureza → bool) (i : nat) (u : UG) (ugs : list UG) :
  ugs !! i = Some u →
  fonte_eh_proibida (ug_fonte u) = false →
  (∀ n, p n = true → nao_excluida n = true) →
  Forall (elegivel (esqueleto ugs) (ug_codigo u)) (selecionar p i u).
Proof.
  intros Hu Hf Hp. apply Forall_forall. intros r Hr.
  apply selecionar_elem in Hr as [H1 (n & H2 & H3)].
  exists (com_naturezas (fmap esqueleto_nat) u), (esqueleto_nat n).
  rewrite esqueleto_lookup, H1, Hu. simpl.
  rewrite list_lookup_fmap, H2. simpl.
  repeat split; auto. apply Hp in H3. exact H3.
Qed.

(** Sorting and filtering keep the elements among those given. *)
Lemma Forall_inserir_desc {A} (R : A → Prop) (chave : A → Q) (x : A) (l : list A) :
  R x → Forall R l → Forall R (inserir_desc chave x l).
Proof.
  intros Hx. induction 1 as [|y l Hy Hl IH]; simpl.
  - constructor; auto.
  - destruct (Qle_bool (chave y) (chave x)); repeat constructor; auto.
Qed.

Lemma Forall_ordenar_desc {A} (R : A → Prop) (chave : A → Q) (l : list A) :
  Forall R l → Forall R (ordenar_desc chave l).
Proof.
  induction 1; simpl; [constructor|]. apply Forall_inserir_desc; auto.
Qed.

Lemma Forall_filtrar {A} (R : A → Prop) (f : A → bool) (l : list A) :
  Forall R l → Forall R (List.filter f l).
Proof.
  induction 1; simpl; [constructor|]. destruct (f x); auto.
Qed.

Lemma Forall_prioritarias (R : Ref → Prop) st digitos doadoras :
  Forall R doadoras → Forall R (prioritarias st digitos doadoras).
Proof. intros H. apply Forall_ordenar_desc, Forall_filtrar, H. Qed.

Lemma Forall_secundarias (R : Ref → Prop) st digitos doadoras :
  Forall R doadoras → Forall R (secundarias st digitos doadoras).
Proof. intros H. apply Forall_ordenar_desc, Forall_filtrar, H. Qed.

(** ** An invariant rule for the passes

    The two passes and [identificar_deficits] change the state only through
    [registrar_transferencia] and through assignments to
    ['necessidade_total'], and every call of [registrar_transferencia] is on
    two eligible natures together with the codes of their units.  So a
    property kept by these two operations holds after each pass. *)

Definition codigo_em (E : list UG) (i : nat) : string :=
  match E !! i with
  | Some u => ug_codigo u
  | None => EmptyString
  end.

Lemma codigo_da_ug_esqueleto (st : Estado) (i : nat) :
  codigo_da_ug st i = codigo_em (esqueleto (ugs_dados st)) i.
Proof.
  unfold codigo_da_ug, codigo_em. rewrite esqueleto_lookup.
  destruct (ugs_dados st !! i); reflexivity.
Qed.

Section Invariante.

Variable E : list UG.
Variable P : Estado → Prop.

Hypothesis P_registrar : ∀ st ug_o o ug_d d v t,
  esqueleto (ugs_dados st) = E → P st →
  elegivel E ug_o o → elegivel E ug_d d →
  P (registrar_transferencia ug_o o ug_d d v t st).

Hypothesis P_necessidade : ∀ st v r cod,
  esqueleto (ugs_dados st) = E → P st → elegivel E cod r →
  P (definir_necessidade v r st).

Definition Bom (st : Estado) : Prop := esqueleto (ugs_dados st) = E ∧ P st.

Lemma bom_registrar ug_o o ug_d d v t st :
  Bom st → elegivel E ug_o o → elegivel E ug_d d →
  Bom (registrar_transferencia ug_o o ug_d d v t st).
Proof.
  intros [HE HP] Ho Hd. split.
  - rewrite esqueleto_registrar. exact HE.
  - apply P_registrar; assumption.
Qed.

Lemma bom_necessidade v r cod st :
  Bom st → elegivel E cod r → Bom (definir_necessidade v r st).
Proof.
  intros [HE HP] Hr. split.
  - rewrite esqueleto_definir_necessidade. exact HE.
  - eapply P_necessidade; eassumption.
Qed.

Lemma bom_varrer_abatendo t ug_o ug_d d doadoras need vt st :
  Bom st → Forall (elegivel E ug_o) doadoras → elegivel E ug_d d →
  Bom (varrer_abatendo t ug_o ug_d d doadoras need vt st).2.
Proof.
  intros Hb Hf Hd. revert need vt st Hb.
  induction Hf as [|s resto Hs Hr IH]; intros need vt st Hb; simpl.
  - exact Hb.
  - destruct (Qle_bool need (1 # 100)); [exact Hb|].
    destruct (Qle_bool (capacidade_de st s) (1 # 100)); [apply IH, Hb|].
    apply IH, bom_registrar; assumption.
Qed.

Lemma bom_varrer_sem_abater t ug_o ug_d d doadoras need vt st :
  Bom st → Forall (elegivel E ug_o) doadoras → elegivel E ug_d d →
  Bom (varrer_sem_abater t ug_o ug_d d doadoras need vt st).2.
Proof.
  intros Hb Hf Hd. revert vt st Hb.
  induction Hf as [|s resto Hs Hr IH]; intros vt st Hb; simpl.
  - exact Hb.
  - destruct (Qle_bool need (1 # 100)); [exact Hb|].
    destruct (Qle_bool (capacidade_de st s) (1 # 100)); [apply IH, Hb|].
    apply IH, bom_registrar; assumption.
Qed.

Lemma bom_cobrir_deficit_interno ug_cod superavitarias d vt st :
  Bom st → Forall (elegivel E ug_cod) superavitarias → elegivel E ug_cod d →
  Bom (estado_de (cobrir_deficit_interno ug_cod superavitarias d vt st)).
Proof.
  intros Hb Hs Hd. unfold cobrir_deficit_interno.
  destruct (obter (ugs_dados st) d) as [nd|]; [|exact Hb].
  destruct (Qle_bool (necessidade_ou_saldo nd) (1 # 100)); [exact Hb|].
  pose proof (Forall_prioritarias _ st (dois_primeiros_digitos nd) _ Hs) as Hpri.
  pose proof (Forall_secundarias _ st (dois_primeiros_digitos nd) _ Hs) as Hsec.
  simpl. destruct (find _ _) as [unica|] eqn:Hfind.
  - simpl. apply (bom_necessidade _ _ ug_cod); [|exact Hd].
    apply bom_registrar; try assumption.
    apply find_some in Hfind as [Hin _]. apply list_elem_of_In in Hin.
    pose proof (Forall_app_2 _ _ _ Hpri Hsec) as Hall.
    rewrite Forall_forall in Hall. apply Hall, Hin.
  - pose proof (bom_varrer_abatendo Interna_mesmos_digitos ug_cod ug_cod d _
                  (necessidade_ou_saldo nd) vt st Hb Hpri Hd) as H1.
    destruct (varrer_abatendo _ _ _ _ _ _ _ _) as [[need1 vt1] st1]. simpl in H1.
    pose proof (bom_varrer_sem_abater Interna ug_cod ug_cod d _
                  need1 vt1 st1 H1 Hsec Hd) as H2.
    destruct (varrer_sem_abater _ _ _ _ _ _ _ _) as [vt2 st2]. simpl in H2.
    destruct vt2; simpl; [apply (bom_necessidade _ _ ug_cod)|]; assumption.
Qed.

Lemma bom_cobrir_deficits_internos ug_cod superavitarias deficitarias vt st :
  Bom st → Forall (elegivel E ug_cod) superavitarias →
  Forall (elegivel E ug_cod) deficitarias →
  Bom (estado_de (cobrir_deficits_internos ug_cod superavitarias deficitarias vt st)).
Proof.
  intros Hb Hs Hd. revert vt st Hb.
  induction Hd as [|d resto Hd Hr IH]; intros vt st Hb; simpl.
  - exact Hb.
  - pose proof (bom_cobrir_deficit_interno ug_cod superavitarias d vt st Hb Hs Hd) as H1.
    destruct (cobrir_deficit_interno _ _ _ _ _) as [vt' st'|e st']; simpl in *.
    + apply IH, H1.
    + exact H1.
Qed.

Lemma nao_excluida_de_e (q : Natureza → bool) (n : Natureza) :
  q n && nao_excluida n = true → nao_excluida n = true.
Proof. intros H. apply andb_true_iff in H. tauto. Qed.

Lemma bom_interno_ug i vt st :
  Bom st → Bom (estado_de (remanejamento_interno_ug i vt st)).
Proof.
  intros Hb. unfold remanejamento_interno_ug.
  destruct (ugs_dados st !! i) as [ug|] eqn:Hu; [|exact Hb].
  destruct (fonte_eh_proibida (ug_fonte ug)) eqn:Hf; [exact Hb|].
  pose proof (selecionar_elegivel (λ n, Qltb (saldo_atual n) 0 && nao_excluida n)
                i ug _ Hu Hf (nao_excluida_de_e _)) as Hdef.
  pose proof (selecionar_elegivel (λ n, Qltb 0 (saldo_atual n) && nao_excluida n)
                i ug _ Hu Hf (nao_excluida_de_e _)) as Hsup.
  destruct Hb as [HE HP]. rewrite HE in Hdef, Hsup.
  destruct (selecionar _ i ug) as [|d ds]; [split; assumption|].
  destruct (selecionar _ i ug) as [|s ss]; [split; assumption|].
  apply bom_cobrir_deficits_internos; [split|..]; assumption.
Qed.

Lemma bom_interno_desde indices vt st :
  Bom st → Bom (estado_de (remanejamento_interno_desde indices vt st)).
Proof.
  revert vt st. induction indices as [|i resto IH]; intros vt st Hb; simpl.
  - exact Hb.
  - pose proof (bom_interno_ug i vt st Hb) as H1.
    destruct (remanejamento_interno_ug i vt st) as [vt' st'|e st']; simpl in *.
    + apply IH, H1.
    + exact H1.
Qed.

Lemma bom_interno st : Bom st → Bom (estado_de (remanejamento_interno st)).
Proof.
  intros Hb. unfold remanejamento_interno.
  pose proof (bom_interno_desde (seq 0 (length (ugs_dados st))) None st Hb) as H1.
  destruct (remanejamento_interno_desde _ _ _); exact H1.
Qed.

Lemma bom_fold {A} (f : Estado → A → Estado) (R : A → Prop) (l : list A) (st : Estado) :
  (∀ st x, Bom st → R x → Bom (f st x)) →
  Forall R l → Bom st → Bom (fold_left f l st).
Proof.
  intros Hf Hl. revert st. induction Hl as [|x l Hx Hl IH]; intros st Hb; simpl.
  - exact Hb.
  - apply IH, Hf; assumption.
Qed.

Definition info_doadora_ok (ud : InfoDoadora) : Prop :=
  Forall (elegivel E (codigo_em E (dd_ug ud))) (dd_naturezas_super ud).

Definition info_deficit_ok (info : InfoDeficit) : Prop :=
  Forall (elegivel E (codigo_em E (id_ug info))) (id_naturezas_deficit info).

Lemma codigo_em_lookup (ugs : list UG) (i : nat) (ug : UG) :
  ugs !! i = Some ug → codigo_em (esqueleto ugs) i = ug_codigo ug.
Proof.
  intros H. unfold codigo_em. rewrite esqueleto_lookup, H. reflexivity.
Qed.

Lemma ugs_doadoras_ok st ug_deficit fonte_deficitaria :
  esqueleto (ugs_dados st) = E →
  Forall info_doadora_ok (ugs_doadoras st ug_deficit fonte_deficitaria).
Proof.
  intros HE. apply Forall_forall. intros ud Hud. unfold ugs_doadoras in Hud.
  apply list_elem_of_omap in Hud as (x & Hx & Hid). simpl in Hid. subst x.
  apply elem_of_lookup_imap_1 in Hx as (k & ug & Heq & Hk).
  unfold info_doadora in Heq.
  destruct (fonte_eh_proibida (ug_fonte ug)) eqn:Hf; [discriminate|].
  destruct (negb _); [discriminate|].
  destruct (String.eqb _ _); [discriminate|].
  pose proof (selecionar_elegivel (λ n, Qltb 0 (saldo_atual n) && nao_excluida n)
                k ug _ Hk Hf (nao_excluida_de_e _)) as Hsel.
  rewrite HE in Hsel.
  destruct (selecionar _ k ug) as [|s ss] eqn:Hs; [discriminate|].
  injection Heq as ->. unfold info_doadora_ok. simpl.
  rewrite <- HE, (codigo_em_lookup _ _ _ Hk), HE. exact Hsel.
Qed.

Lemma ugs_deficitarias_ok st :
  esqueleto (ugs_dados st) = E → Forall info_deficit_ok (ugs_deficitarias st).
Proof.
  intros HE. apply Forall_forall. intros info Hinfo. unfold ugs_deficitarias in Hinfo.
  apply list_elem_of_omap in Hinfo as (x & Hx & Hid). simpl in Hid. subst x.
  apply elem_of_lookup_imap_1 in Hx as (k & ug & Heq & Hk).
  unfold info_deficit in Heq.
  destruct (fonte_eh_proibida (ug_fonte ug)) eqn:Hf; [discriminate|].
  assert (Hp : ∀ n, deficit_residual n = true → nao_excluida n = true).
  { intros n Hn. unfold deficit_residual in Hn. unfold nao_excluida.
    apply andb_true_iff in Hn as [Hn H2]. apply andb_true_iff in Hn as [Hn H1].
    rewrite H1, H2. reflexivity. }
  pose proof (selecionar_elegivel deficit_residual k ug _ Hk Hf Hp) as Hsel.
  rewrite HE in Hsel.
  destruct (selecionar _ k ug) as [|s ss] eqn:Hs; [discriminate|].
  injection Heq as ->. unfold info_deficit_ok. simpl.
  rewrite <- HE, (codigo_em_lookup _ _ _ Hk), HE. exact Hsel.
Qed.

Lemma bom_percorrer_doadoras ug_d d digitos doadoras need st :
  Bom st → Forall info_doadora_ok doadoras → elegivel E ug_d d →
  Bom (percorrer_doadoras ug_d d digitos doadoras need st).2.
Proof.
  intros Hb Hf Hd. revert need st Hb.
  induction Hf as [|ud resto Hud Hr IH]; intros need st Hb; simpl.
  - exact Hb.
  - destruct (Qle_bool need (1 # 100)); [exact Hb|].
    assert (Hcod : codigo_da_ug st (dd_ug ud) = codigo_em E (dd_ug ud)).
    { rewrite codigo_da_ug_esqueleto. destruct Hb as [-> _]. reflexivity. }
    rewrite Hcod.
    pose proof (bom_varrer_abatendo Externa_mesmos_digitos (codigo_em E (dd_ug ud)) ug_d d
                  (prioritarias st digitos (dd_naturezas_super ud)) need None st Hb
                  (Forall_prioritarias _ _ _ _ Hud) Hd) as H1.
    destruct (varrer_abatendo Externa_mesmos_digitos _ _ _ _ _ _ _) as [[need1 vt1] st1].
    simpl in H1.
    pose proof (bom_varrer_abatendo Externa (codigo_em E (dd_ug ud)) ug_d d
                  (secundarias st digitos (dd_naturezas_super ud)) need1 vt1 st1 H1
                  (Forall_secundarias _ _ _ _ Hud) Hd) as H2.
    destruct (varrer_abatendo Externa _ _ _ _ _ _ _) as [[need2 vt2] st2].
    simpl in H2. apply IH, H2.
Qed.

Lemma bom_cobrir_deficit_externo ug_d doadoras st d :
  Bom st → Forall info_doadora_ok doadoras → elegivel E ug_d d →
  Bom (cobrir_deficit_externo ug_d doadoras st d).
Proof.
  intros Hb Hf Hd. unfold cobrir_deficit_externo.
  destruct (obter (ugs_dados st) d) as [nd|]; [|exact Hb].
  destruct (Qle_bool (necessidade_ou_saldo nd) (1 # 100)); [exact Hb|].
  pose proof (bom_percorrer_doadoras ug_d d (dois_primeiros_digitos nd) doadoras
                (necessidade_ou_saldo nd) st Hb Hf Hd) as H1.
  destruct (percorrer_doadoras _ _ _ _ _ _) as [need' st']. simpl in H1.
  apply (bom_necessidade _ _ ug_d); assumption.
Qed.

Lemma bom_externo_ug st info :
  Bom st → info_deficit_ok info → Bom (remanejamento_externo_ug st info).
Proof.
  intros Hb Hinfo. unfold remanejamento_externo_ug.
  pose proof (ugs_doadoras_ok st (id_ug info) (id_fonte info) (proj1 Hb)) as Hdo.
  destruct (ugs_doadoras st (id_ug info) (id_fonte info)) as [|ud uds]; [exact Hb|].
  assert (Hcod : codigo_da_ug st (id_ug info) = codigo_em E (id_ug info)).
  { rewrite codigo_da_ug_esqueleto. destruct Hb as [-> _]. reflexivity. }
  rewrite Hcod.
  apply (bom_fold _ (elegivel E (codigo_em E (id_ug info)))); [|exact Hinfo|exact Hb].
  intros st' d Hb' Hd. apply bom_cobrir_deficit_externo; [exact Hb'| |exact Hd].
  apply Forall_ordenar_desc, Hdo.
Qed.

Lemma bom_externo st : Bom st → Bom (remanejamento_externo st).
Proof.
  intros Hb. unfold remanejamento_externo.
  apply (bom_fold _ info_deficit_ok); [|apply ugs_deficitarias_ok, Hb|exact Hb].
  intros st' info Hb' Hinfo. apply bom_externo_ug; assumption.
Qed.

Lemma bom_anotar_deficit st r cod :
  Bom st → elegivel E cod r → Bom (anotar_deficit st r).
Proof.
  intros Hb Hr. unfold anotar_deficit.
  destruct (obter (ugs_dados st) r); [apply (bom_necessidade _ _ cod)|]; assumption.
Qed.

Lemma bom_identificar_deficits st : Bom st → Bom (identificar_deficits st).2.
Proof.
  intros Hb. unfold identificar_deficits.
  assert (H : ∀ l acc, Bom acc.2 → Bom (fold_left identificar_deficits_ug l acc).2).
  { induction l as [|i l IH]; intros acc Hacc; simpl; [exact Hacc|].
    apply IH. destruct acc as [total st']. simpl in *.
    destruct (ugs_dados st' !! i) as [ug|] eqn:Hu; [|exact Hacc].
    destruct (fonte_eh_proibida (ug_fonte ug)) eqn:Hf; [exact Hacc|]. simpl.
    assert (Hp : ∀ n, deficit_elegivel n = true → nao_excluida n = true).
    { intros n Hn. unfold deficit_elegivel in Hn. unfold nao_excluida.
      apply andb_true_iff in Hn as [Hn H2]. apply andb_true_iff in Hn as [Hn H1].
      rewrite H1, H2. reflexivity. }
    pose proof (selecionar_elegivel deficit_elegivel i ug _ Hu Hf Hp) as Hsel.
    rewrite (proj1 Hacc) in Hsel.
    apply (bom_fold _ (elegivel E (ug_codigo ug))); [|exact Hsel|exact Hacc].
    intros st'' r Hb'' Hr. apply (bom_anotar_deficit _ _ (ug_codigo ug)); assumption. }
  apply H. exact Hb.
Qed.

(** The rule: a property of the state built by [identificar_estrutura] that
    both operations keep holds in the state [processar_arquivo] ends with,
    whether it returns or raises after the header was found. *)
Lemma bom_processar_arquivo coluna linhas :
  E = esqueleto (identificar_estrutura linhas) →
  P (estado_inicial linhas) →
  Bom (estado_de (processar_arquivo (Some coluna) linhas)).
Proof.
  intros HE Pini. unfold processar_arquivo.
  assert (Hb : Bom (estado_inicial linhas)) by (split; [symmetry; exact HE|exact Pini]).
  destruct (length (ugs_dados (estado_inicial linhas)) =? 0)%nat; [exact Hb|].
  apply bom_identificar_deficits in Hb.
  destruct (identificar_deficits (estado_inicial linhas)) as [total st1]. simpl in Hb.
  apply bom_interno in Hb.
  destruct (remanejamento_interno st1) as [[] st2|e st2]; simpl in Hb; [|apply Hb].
  apply bom_externo in Hb.
  unfold gerar_aba_remanejamento.
  destruct (remanejamentos (remanejamento_externo st2)); simpl; apply Hb.
Qed.

End Invariante.

(** ** Invariants of the committed transfers *)

Lemma elegivel_obter (ugs : list UG) (cod : string) (r : Ref) :
  elegivel (esqueleto ugs) cod r →
  ∃ u n, ugs !! r.1 = Some u ∧ naturezas u !! r.2 = Some n ∧ obter ugs r = Some n
         ∧ ug_codigo u = cod
         ∧ fonte_eh_proibida (ug_fonte u) = false
         ∧ nao_excluida n = true.
Proof.
  intros (u' & n' & Hu & Hn & Hc & Hf & Hx).
  rewrite esqueleto_lookup in Hu.
  destruct (ugs !! r.1) as [u|] eqn:E1; [|discriminate].
  simpl in Hu. injection Hu as <-. simpl in Hn, Hc, Hf.
  rewrite list_lookup_fmap in Hn.
  destruct (naturezas u !! r.2) as [n|] eqn:E2; [|discriminate].
  simpl in Hn. injection Hn as <-.
  exists u, n. unfold obter. rewrite E1. repeat split; auto.
Qed.

Lemma aceita_distintas (ugs : list UG) (o d : Ref) (no nd : Natureza) (valor : Q) :
  obter ugs o = Some no → obter ugs d = Some nd →
  ¬ rejeitada no nd valor → o ≠ d.
Proof.
  intros Ho Hd Hok ->. rewrite Ho in Hd. injection Hd as ->.
  apply Hok. unfold rejeitada.
  destruct (Qlt_le_dec 0 (saldo_original nd)); [right; left; lra | left; lra].
Qed.

Lemma registrar_obter_outra ug_o o ug_d d v t st (r : Ref) :
  r ≠ o → r ≠ d →
  obter (ugs_dados (registrar_transferencia ug_o o ug_d d v t st)) r =
  obter (ugs_dados st) r.
Proof.
  intros H1 H2. unfold registrar_transferencia.
  repeat match goal with
         | |- context [match ?x with _ => _ end] => destruct x; try reflexivity
         end.
  simpl. unfold creditar, debitar.
  rewrite !obter_alterar_outra by congruence. reflexivity.
Qed.

(** One side of a committed transfer: the nature at position [r], in the
    never-changing part [E] of the ledger, has the codes and name the record
    shows and is excluded neither by its unit's fund, nor by its own fund,
    nor by its code. *)
Definition lado_ok (E : list UG) (r : Ref) (ug_cod nat_cod nat_nome : string) : Prop :=
  ∃ u n, E !! r.1 = Some u ∧ naturezas u !! r.2 = Some n
         ∧ ug_codigo u = ug_cod ∧ codigo n = nat_cod ∧ nome n = nat_nome
         ∧ ug_fonte u ≠ FONTE_PROIBIDA
         ∧ fonte n ≠ FONTE_PROIBIDA
         ∧ codigo_limpo (codigo n) ∉ NATUREZAS_PROIBIDAS.

(** A record and the call that appended it. *)
Definition commit_ok (E : list UG) (reg : Remanejamento) (c : Commit) : Prop :=
  lado_ok E (c_origem c) (r_UG_Origem reg) (r_Natureza_Origem reg)
          (r_Nome_Natureza_Origem reg)
  ∧ lado_ok E (c_destino c) (r_UG_Destino reg) (r_Natureza_Destino reg)
            (r_Nome_Natureza_Destino reg)
  ∧ (∃ no nd, obter E (c_origem c) = Some no ∧ obter E (c_destino c) = Some nd
              ∧ 0 < saldo_original no ∧ saldo_original nd < 0)
  ∧ r_Valor reg = round2 (c_valor c).

Definition inv_historico (E : list UG) (st : Estado) : Prop :=
  Forall2 (commit_ok E) (remanejamentos st) (historico st).

Lemma nao_excluida_sse (n : Natureza) :
  nao_excluida n = true ↔
  fonte n ≠ FONTE_PROIBIDA ∧ codigo_limpo (codigo n) ∉ NATUREZAS_PROIBIDAS.
Proof.
  unfold nao_excluida, fonte_eh_proibida.
  rewrite andb_true_iff, !negb_true_iff, bool_decide_eq_false, nao_proibida_sse.
  reflexivity.
Qed.

Lemma elegivel_lado_ok (ugs : list UG) (cod : string) (r : Ref) (n : Natureza) :
  elegivel (esqueleto ugs) cod r → obter ugs r = Some n →
  lado_ok (esqueleto ugs) r cod (codigo n) (nome n).
Proof.
  intros He Hn. apply elegivel_obter in He as (u & n' & Hu & Hn' & Hobt & Hc & Hf & Hx).
  rewrite Hobt in Hn. injection Hn as ->.
  apply nao_excluida_sse in Hx as [Hx1 Hx2].
  unfold fonte_eh_proibida in Hf. apply bool_decide_eq_false in Hf.
  exists (com_naturezas (fmap esqueleto_nat) u), (esqueleto_nat n).
  rewrite esqueleto_lookup, Hu. simpl. rewrite list_lookup_fmap, Hn'. simpl.
  repeat split; assumption.
Qed.

Lemma inv_historico_registrar E st ug_o o ug_d d v t :
  esqueleto (ugs_dados st) = E → inv_historico E st →
  elegivel E ug_o o → elegivel E ug_d d →
  inv_historico E (registrar_transferencia ug_o o ug_d d v t st).
Proof.
  intros HE Hinv Ho Hd. subst E.
  destruct (elegivel_obter _ _ _ Ho) as (uo & no & _ & _ & Hno & _).
  destruct (elegivel_obter _ _ _ Hd) as (ud & nd & _ & _ & Hnd & _).
  destruct (rejeitada_dec no nd v) as [Hrej|Hok].
  - rewrite (registrar_rejeita _ _ _ _ _ _ _ _ _ Hno Hnd Hrej). exact Hinv.
  - rewrite (registrar_aceita _ _ _ _ _ _ _ _ _ Hno Hnd Hok).
    unfold inv_historico. simpl. apply Forall2_app; [exact Hinv|].
    constructor; [|constructor]. unfold commit_ok. simpl.
    split; [apply elegivel_lado_ok; assumption|].
    split; [apply elegivel_lado_ok; assumption|].
    split; [|reflexivity].
    exists (esqueleto_nat no), (esqueleto_nat nd).
    rewrite !obter_esqueleto, Hno, Hnd. simpl.
    unfold rejeitada in Hok.
    repeat split; try reflexivity; apply Qnot_le_lt; tauto.
Qed.

(** Natures that are not eligible keep every field they were parsed with. *)
Definition inv_intocada (E ugs0 : list UG) (st : Estado) : Prop :=
  ∀ r, (∀ cod, ¬ elegivel E cod r) → obter (ugs_dados st) r = obter ugs0 r.

Lemma inv_intocada_registrar E ugs0 st ug_o o ug_d d v t :
  inv_intocada E ugs0 st → elegivel E ug_o o → elegivel E ug_d d →
  inv_intocada E ugs0 (registrar_transferencia ug_o o ug_d d v t st).
Proof.
  intros Hinv Ho Hd r Hr. rewrite registrar_obter_outra.
  - apply Hinv, Hr.
  - intros ->. exact (Hr _ Ho).
  - intros ->. exact (Hr _ Hd).
Qed.

Lemma inv_intocada_necessidade E ugs0 st v r cod :
  inv_intocada E ugs0 st → elegivel E cod r →
  inv_intocada E ugs0 (definir_necessidade v r st).
Proof.
  intros Hinv He r' Hr'. simpl. rewrite obter_alterar_outra.
  - apply Hinv, Hr'.
  - intros ->. exact (Hr' _ He).
Qed.

Lemma lado_ok_obter (ugs : list UG) (r : Ref) (a b c : string) :
  lado_ok (esqueleto ugs) r a b c →
  ∃ u n, ugs !! r.1 = Some u ∧ naturezas u !! r.2 = Some n ∧ obter ugs r = Some n
         ∧ ug_codigo u = a ∧ codigo n = b ∧ nome n = c
         ∧ ug_fonte u ≠ FONTE_PROIBIDA ∧ fonte n ≠ FONTE_PROIBIDA
         ∧ codigo_limpo (codigo n) ∉ NATUREZAS_PROIBIDAS.
Proof.
  intros (u' & n' & Hu & Hn & H).
  rewrite esqueleto_lookup in Hu.
  destruct (ugs !! r.1) as [u|] eqn:E1; [|discriminate].
  simpl in Hu. injection Hu as <-. simpl in Hn, H.
  rewrite list_lookup_fmap in Hn.
  destruct (naturezas u !! r.2) as [n|] eqn:E2; [|discriminate].
  simpl in Hn. injection Hn as <-. simpl in H.
  exists u, n. unfold obter. rewrite E1. tauto.
Qed.

Lemma Forall2_elem_r {A B} (R : A → B → Prop) (l : list A) (k : list B) (y : B) :
  Forall2 R l k → y ∈ k → ∃ x, x ∈ l ∧ R x y.
Proof.
  induction 1 as [|x y' l k Hxy Hlk IH]; intros Hy.
  - inversion Hy.
  - apply elem_of_cons in Hy as [->|Hy].
    + exists x. split; [left|exact Hxy].
    + destruct (IH Hy) as (x' & Hx' & HR). exists x'. split; [right; exact Hx'|exact HR].
Qed.

Lemma processar_sem_coluna linhas :
  processar_arquivo None linhas =
  Levanta ColunaNaoEncontrada {| ugs_dados := []; remanejamentos := []; historico := [] |}.
Proof. reflexivity. Qed.

Lemma processar_sem_ug coluna linhas :
  identificar_estrutura linhas = [] →
  processar_arquivo (Some coluna) linhas = Levanta NenhumaUG (estado_inicial linhas).
Proof.
  intros H. unfold processar_arquivo, estado_inicial. rewrite H. reflexivity.
Qed.

(** The state a run ends in, with the header found: the never-changing part
    of the ledger is the parsed one, and every record was appended by a call
    on two eligible natures that passed the checks of
    [registrar_transferencia]. *)
Lemma final_historico coluna linhas :
  let E := esqueleto (identificar_estrutura linhas) in
  let st := estado_de (processar_arquivo (Some coluna) linhas) in
  esqueleto (ugs_dados st) = E ∧ inv_historico E st.
Proof.
  intros E st.
  apply (bom_processar_arquivo E (inv_historico E)).
  - intros st0 ug_o o ug_d d v t HE Hinv Ho Hd.
    apply inv_historico_registrar; assumption.
  - intros st0 v r cod HE Hinv _. exact Hinv.
  - reflexivity.
  - constructor.
Qed.

Lemma final_intocada coluna linhas :
  let E := esqueleto (identificar_estrutura linhas) in
  let st := estado_de (processar_arquivo (Some coluna) linhas) in
  inv_intocada E (identificar_estrutura linhas) st.
Proof.
  intros E st.
  apply (bom_processar_arquivo E (inv_intocada E (identificar_estrutura linhas))).
  - intros st0 ug_o o ug_d d v t HE Hinv Ho Hd.
    apply inv_intocada_registrar; assumption.
  - intros st0 v r cod HE Hinv Hr.
    eapply inv_intocada_necessidade; eassumption.
  - reflexivity.
  - intros r _. reflexivity.
Qed.

(** C5.  In the state any run ends with, every committed record shows a
    source code and a destination code that are not in the prohibited set
    (after stripping dots and spaces), and the two natures that were passed
    to the call that appended it carry those codes and a fund different from
    the configured prohibited fund. *)
Theorem C5_exclusao coluna_saldo linhas :
  let st := estado_de (processar_arquivo coluna_saldo linhas) in
  Forall2 (λ reg c,
      (codigo_limpo (r_Natureza_Origem reg) ∉ NATUREZAS_PROIBIDAS)
      ∧ (codigo_limpo (r_Natureza_Destino reg) ∉ NATUREZAS_PROIBIDAS)
      ∧ ∃ no nd, obter (ugs_dados st) (c_origem c) = Some no
                 ∧ obter (ugs_dados st) (c_destino c) = Some nd
                 ∧ codigo no = r_Natureza_Origem reg
                 ∧ codigo nd = r_Natureza_Destino reg
                 ∧ fonte no ≠ FONTE_PROIBIDA
                 ∧ fonte nd ≠ FONTE_PROIBIDA)
    (remanejamentos st) (historico st).
Proof.
  destruct coluna_saldo as [coluna|]; [|constructor].
  intros st. destruct (final_historico coluna linhas) as [HE Hinv].
  fold st in HE, Hinv. rewrite <- HE in Hinv.
  eapply Forall2_impl; [exact Hinv|].
  intros reg c (Ho & Hd & _ & _).
  apply lado_ok_obter in Ho as (uo & no & _ & _ & Hno & _ & Hco & _ & _ & Hfo & Hpo).
  apply lado_ok_obter in Hd as (ud & nd & _ & _ & Hnd & _ & Hcd & _ & _ & Hfd & Hpd).
  rewrite <- Hco, <- Hcd. repeat split; try assumption.
  exists no, nd. repeat split; assumption.
Qed.

(** C9.  In the state any run ends with: every committed transfer has a
    source whose original balance is positive and a destination whose
    original balance is negative; the original balance of every nature is
    the parsed one; hence no nature is the source of one committed transfer
    and the destination of another. *)
Theorem C9_origens_e_destinos_disjuntos coluna_saldo linhas :
  let st := estado_de (processar_arquivo coluna_saldo linhas) in
  (∀ c, c ∈ historico st →
        ∃ no nd, obter (ugs_dados st) (c_origem c) = Some no
                 ∧ obter (ugs_dados st) (c_destino c) = Some nd
                 ∧ 0 < saldo_original no ∧ saldo_original nd < 0)
  ∧ (∀ r n, obter (ugs_dados st) r = Some n →
            ∃ n0, obter (identificar_estrutura linhas) r = Some n0
                  ∧ saldo_original n = saldo_original n0)
  ∧ (∀ c c', c ∈ historico st → c' ∈ historico st → c_origem c ≠ c_destino c').
Proof.
  destruct coluna_saldo as [coluna|].
  2:{ simpl. repeat split.
      - intros c Hc. inversion Hc.
      - intros [i j] n Hn. unfold obter in Hn. simpl in Hn. discriminate.
      - intros c c' Hc. inversion Hc. }
  intros st. destruct (final_historico coluna linhas) as [HE Hinv].
  fold st in HE, Hinv.
  assert (H1 : ∀ c, c ∈ historico st →
             ∃ no nd, obter (ugs_dados st) (c_origem c) = Some no
                      ∧ obter (ugs_dados st) (c_destino c) = Some nd
                      ∧ 0 < saldo_original no ∧ saldo_original nd < 0).
  { intros c Hc.
    destruct (Forall2_elem_r _ _ _ _ Hinv Hc) as (reg & _ & _ & _ & Hs & _).
    destruct Hs as (no' & nd' & Hno & Hnd & Hpos & Hneg).
    rewrite <- HE, obter_esqueleto in Hno, Hnd.
    destruct (obter (ugs_dados st) (c_origem c)) as [no|]; [|discriminate].
    destruct (obter (ugs_dados st) (c_destino c)) as [nd|]; [|discriminate].
    simpl in Hno, Hnd. injection Hno as <-. injection Hnd as <-.
    exists no, nd. auto. }
  split; [exact H1|]. split.
  - intros r n Hn.
    assert (Hesq : obter (esqueleto (identificar_estrutura linhas)) r =
                   Some (esqueleto_nat n)).
    { rewrite <- HE, obter_esqueleto, Hn. reflexivity. }
    rewrite obter_esqueleto in Hesq.
    destruct (obter (identificar_estrutura linhas) r) as [n0|]; [|discriminate].
    simpl in Hesq. exists n0. split; [reflexivity|].
    injection Hesq as _ _ Hso _ _. symmetry. exact Hso.
  - intros c c' Hc Hc' Heq.
    destruct (H1 c Hc) as (no & _ & Hno & _ & Hpos & _).
    destruct (H1 c' Hc') as (_ & nd & _ & Hnd & _ & Hneg).
    rewrite Heq, Hnd in Hno. injection Hno as ->. lra.
Qed.

(** ** C7: balances and committed amounts *)

(** Each record paired with the call that appended it. *)
Definition pares (st : Estado) : list (Remanejamento * Commit) :=
  zip (remanejamentos st) (historico st).

Definition recebe (r : Ref) (p : Remanejamento * Commit) : bool :=
  bool_decide (c_destino p.2 = r).

Definition doa (r : Ref) (p : Remanejamento * Commit) : bool :=
  bool_decide (c_origem p.2 = r).

(** Sum of the amounts passed to the selected commits, and sum of the
    [Valor] fields of their records. *)
Definition exato (sel : Remanejamento * Commit → bool)
    (ps : list (Remanejamento * Commit)) : Q :=
  soma (map (λ p, c_valor p.2) (List.filter sel ps)).

Definition registrado (sel : Remanejamento * Commit → bool)
    (ps : list (Remanejamento * Commit)) : Q :=
  soma (map (λ p, r_Valor p.1) (List.filter sel ps)).

Lemma soma_app (l1 l2 : list Q) : soma (l1 ++ l2) == soma l1 + soma l2.
Proof.
  induction l1 as [|x l1 IH]; simpl; [lra|]. rewrite IH. lra.
Qed.

Lemma exato_snoc sel ps p :
  exato sel (ps ++ [p]) == exato sel ps + (if sel p then c_valor p.2 else 0).
Proof.
  unfold exato. rewrite List.filter_app, map_app, soma_app. simpl.
  destruct (sel p); simpl; lra.
Qed.

Lemma registrar_fora ug_o o ug_d d v t st :
  obter (ugs_dados st) o = None ∨ obter (ugs_dados st) d = None →
  registrar_transferencia ug_o o ug_d d v t st = st.
Proof.
  intros H. unfold registrar_transferencia.
  destruct (obter (ugs_dados st) o); [|reflexivity].
  destruct (obter (ugs_dados st) d); [|reflexivity].
  destruct H; discriminate.
Qed.

(** What [identificar_estrutura] builds: current balance equal to the
    original one, no ['necessidade_total'] key. *)
Definition fresca (n : Natureza) : Prop :=
  saldo_atual n = saldo_original n ∧ necessidade_total n = None.

Lemma identificar_linha_frescas (ugs : list UG) (linha : Linha) :
  Forall (λ u, Forall fresca (naturezas u)) ugs →
  Forall (λ u, Forall fresca (naturezas u)) (identificar_linha ugs linha).
Proof.
  intros H. destruct linha as [c nm sd f|c nm sd f|]; simpl.
  - apply Forall_app. split; [exact H|]. repeat constructor.
  - destruct (last ugs) as [ug_atual|]; [|exact H].
    apply Forall_alter; [exact H|].
    intros u _ Hu. simpl. apply Forall_app. split; [exact Hu|].
    repeat constructor.
  - exact H.
Qed.

Lemma identificar_estrutura_frescas (linhas : list Linha) (r : Ref) (n : Natureza) :
  obter (identificar_estrutura linhas) r = Some n → fresca n.
Proof.
  assert (H : ∀ l ugs, Forall (λ u, Forall fresca (naturezas u)) ugs →
                Forall (λ u, Forall fresca (naturezas u)) (fold_left identificar_linha l ugs)).
  { induction l as [|x l IH]; intros ugs Hugs; simpl; [exact Hugs|].
    apply IH, identificar_linha_frescas, Hugs. }
  specialize (H linhas [] (Forall_nil_2 _)). fold (identificar_estrutura linhas) in H.
  unfold obter. destruct (identificar_estrutura linhas !! r.1) as [u|] eqn:Hu; [|discriminate].
  intros Hn. eapply Forall_lookup_1; [|exact Hn].
  eapply (Forall_lookup_1 _ _ _ _ H Hu).
Qed.

(** The effect of one commit on the balance [s] of the nature at [r]:
    [nat_origem['saldo_atual'] -= valor] and then
    [nat_destino['saldo_atual'] += valor] (lines 717-718), each applied when
    [r] is the nature it names. *)
Definition efeito (r : Ref) (s : Q) (c : Commit) : Q :=
  let s := if bool_decide (c_origem c = r) then s - c_valor c else s in
  if bool_decide (c_destino c = r) then s + c_valor c else s.

(** The balance of every nature is its original balance put through the
    commits so far, in their order. *)
Definition inv_saldos (st : Estado) : Prop :=
  ∀ r n, obter (ugs_dados st) r = Some n →
    saldo_atual n = fold_left (efeito r) (historico st) (saldo_original n).

Lemma inv_saldos_registrar ug_o o ug_d d v t st :
  inv_saldos st → inv_saldos (registrar_transferencia ug_o o ug_d d v t st).
Proof.
  intros Hinv.
  destruct (obter (ugs_dados st) o) as [no|] eqn:Hno.
  2:{ rewrite registrar_fora by auto. exact Hinv. }
  destruct (obter (ugs_dados st) d) as [nd|] eqn:Hnd.
  2:{ rewrite registrar_fora by auto. exact Hinv. }
  destruct (rejeitada_dec no nd v) as [Hrej|Hok].
  { rewrite (registrar_rejeita _ _ _ _ _ _ _ _ _ Hno Hnd Hrej). exact Hinv. }
  rewrite (registrar_aceita _ _ _ _ _ _ _ _ _ Hno Hnd Hok).
  intros r n. cbn [historico ugs_dados].
  rewrite fold_left_app. cbn [fold_left]. unfold efeito. cbn [c_origem c_destino c_valor].
  unfold creditar, debitar. rewrite !obter_alterar.
  destruct (obter (ugs_dados st) r) as [n0|] eqn:Hn0.
  2:{ destruct (decide (d = r)), (decide (o = r)); discriminate. }
  pose proof (Hinv _ _ Hn0) as H0.
  destruct (decide (d = r)) as [Hd|Hd], (decide (o = r)) as [Ho|Ho];
    [ rewrite (bool_decide_eq_true_2 _ Hd), (bool_decide_eq_true_2 _ Ho)
    | rewrite (bool_decide_eq_true_2 _ Hd), (bool_decide_eq_false_2 _ Ho)
    | rewrite (bool_decide_eq_false_2 _ Hd), (bool_decide_eq_true_2 _ Ho)
    | rewrite (bool_decide_eq_false_2 _ Hd), (bool_decide_eq_false_2 _ Ho) ];
    simpl; intros Hn; injection Hn as <-; simpl; rewrite H0; reflexivity.
Qed.

Lemma inv_saldos_necessidade v r st :
  inv_saldos st → inv_saldos (definir_necessidade v r st).
Proof.
  intros Hinv r' n. simpl. rewrite obter_alterar.
  destruct (decide (r = r')) as [<-|Hne].
  - destruct (obter (ugs_dados st) r) as [n0|] eqn:Hn0; [|discriminate].
    simpl. intros Hn. injection Hn as <-. simpl. apply (Hinv _ _ Hn0).
  - apply Hinv.
Qed.

Lemma final_saldos coluna linhas :
  inv_saldos (estado_de (processar_arquivo (Some coluna) linhas)).
Proof.
  apply (bom_processar_arquivo (esqueleto (identificar_estrutura linhas)) inv_saldos).
  - intros st0 ug_o o ug_d d v t _ Hinv _ _. apply inv_saldos_registrar, Hinv.
  - intros st0 v r cod _ Hinv _. apply inv_saldos_necessidade, Hinv.
  - reflexivity.
  - intros r n Hn. simpl in Hn.
    apply identificar_estrutura_frescas in Hn as [-> _]. reflexivity.
Qed.

(** C7 (as amended).  For every nature in the state a run ends with, the
    current balance is the original balance put through the commits of the
    run in their order: [-= valor] for each commit that names the nature as
    source, [+= valor] for each that names it as destination, [valor] being
    the amount passed to the commit.  The [Valor] of each record is that
    amount rounded to two decimals.  Nothing else writes a balance; the
    proof uses the order of the updates only, no law of arithmetic. *)
Theorem C7_saldo_final coluna_saldo linhas r n :
  let st := estado_de (processar_arquivo coluna_saldo linhas) in
  obter (ugs_dados st) r = Some n →
  saldo_atual n = fold_left (efeito r) (historico st) (saldo_original n)
  ∧ Forall2 (λ reg c, r_Valor reg = round2 (c_valor c))
      (remanejamentos st) (historico st).
Proof.
  destruct coluna_saldo as [coluna|].
  2:{ simpl. destruct r as [i j]. unfold obter. simpl. discriminate. }
  intros st Hn. split.
  - apply (final_saldos coluna linhas), Hn.
  - destruct (final_historico coluna linhas) as [_ Hh]. fold st in Hh.
    eapply Forall2_impl; [exact Hh|].
    intros reg c Hc. apply Hc.
Qed.

(** ** C6: consolidation *)

Definition chave_do_consolidado (c : Consolidado) : Chave :=
  (k_Fonte c, k_UG_Origem c, k_Natureza_Origem c, k_UG_Destino c, k_Natureza_Destino c).

Definition mesma_chave (k : Chave) (rem : Remanejamento) : bool :=
  bool_decide (chave_de rem = k).

(** The descriptive fields of a consolidated row are those of a record. *)
Definition descreve (c : Consolidado) (rem : Remanejamento) : Prop :=
  k_Tipo c = r_Tipo rem
  ∧ k_Nome_Natureza_Origem c = r_Nome_Natureza_Origem rem
  ∧ k_Nome_Natureza_Destino c = r_Nome_Natureza_Destino rem.

(** The association list [acc] is the consolidation of the records [pre]. *)
Definition cons_ok (pre : list Remanejamento) (acc : list (Chave * Consolidado)) : Prop :=
  NoDup acc.*1
  ∧ (∀ k c, (k, c) ∈ acc →
       chave_do_consolidado c = k
       ∧ k_Valor c == soma (map r_Valor (List.filter (mesma_chave k) pre))
       ∧ ∃ r0, find (mesma_chave k) pre = Some r0 ∧ descreve c r0)
  ∧ (∀ rem, rem ∈ pre → chave_de rem ∈ acc.*1)
  ∧ (length acc ≤ length pre)%nat.

Lemma filtrar_nenhum {A} (f : A → bool) (l : list A) :
  (∀ x, x ∈ l → f x = false) → List.filter f l = [].
Proof.
  induction l as [|x l IH]; intros H; simpl; [reflexivity|].
  rewrite (H x) by left. apply IH. intros y Hy. apply H. right. exact Hy.
Qed.

Lemma find_nenhum {A} (f : A → bool) (l : list A) :
  (∀ x, x ∈ l → f x = false) → find f l = None.
Proof.
  induction l as [|x l IH]; intros H; simpl; [reflexivity|].
  rewrite (H x) by left. apply IH. intros y Hy. apply H. right. exact Hy.
Qed.

Lemma find_app_some {A} (f : A → bool) (l l' : list A) (x : A) :
  find f l = Some x → find f (l ++ l') = Some x.
Proof.
  induction l as [|y l IH]; simpl; [discriminate|].
  destruct (f y); [trivial|exact IH].
Qed.

Lemma find_app_none {A} (f : A → bool) (l l' : list A) :
  find f l = None → find f (l ++ l') = find f l'.
Proof.
  induction l as [|y l IH]; simpl; [reflexivity|].
  destruct (f y); [discriminate|exact IH].
Qed.

Lemma acumular_presente k rem acc :
  k ∈ acc.*1 →
  (acumular k rem acc).*1 = acc.*1 ∧ length (acumular k rem acc) = length acc.
Proof.
  induction acc as [|[k0 c0] acc IH]; intros Hk.
  - inversion Hk.
  - cbn [acumular]. destruct (bool_decide (k0 = k)) eqn:E.
    + split; reflexivity.
    + apply bool_decide_eq_false in E. rewrite fmap_cons in Hk.
      apply elem_of_cons in Hk as [Hk|Hk]; [simpl in Hk; congruence|].
      destruct (IH Hk) as [H1 H2].
      rewrite !fmap_cons, H1. cbn [length]. rewrite H2. split; reflexivity.
Qed.

Lemma acumular_ausente k rem acc :
  k ∉ acc.*1 → acumular k rem acc = acc ++ [(k, primeira_ocorrencia rem)].
Proof.
  induction acc as [|[k0 c0] acc IH]; simpl; intros Hk; [reflexivity|].
  apply not_elem_of_cons in Hk as [Hne Hk].
  rewrite bool_decide_eq_false_2 by congruence. rewrite IH by exact Hk. reflexivity.
Qed.

Lemma acumular_elem k rem acc k' c' :
  NoDup acc.*1 → (k', c') ∈ acumular k rem acc →
  (k' ≠ k ∧ (k', c') ∈ acc)
  ∨ (k' = k ∧ ∃ c, (k, c) ∈ acc ∧ c' = somar_valor (r_Valor rem) c)
  ∨ (k' = k ∧ (k ∉ acc.*1) ∧ c' = primeira_ocorrencia rem).
Proof.
  induction acc as [|[k0 c0] acc IH]; simpl; intros Hnd Hin.
  - apply list_elem_of_singleton in Hin. injection Hin as -> ->.
    right. right. repeat split. apply not_elem_of_nil.
  - apply NoDup_cons in Hnd as [Hk0 Hnd].
    destruct (bool_decide (k0 = k)) eqn:E.
    + apply bool_decide_eq_true in E. subst k0.
      apply elem_of_cons in Hin as [Hin|Hin].
      * injection Hin as -> ->. right. left. split; [reflexivity|].
        exists c0. split; [left|reflexivity].
      * left. split; [|right; exact Hin].
        intros ->. apply Hk0. apply list_elem_of_fmap. exists (k, c'). auto.
    + apply bool_decide_eq_false in E.
      apply elem_of_cons in Hin as [Hin|Hin].
      * injection Hin as -> ->. left. split; [exact E|left].
      * destruct (IH Hnd Hin) as [[H1 H2]|[[H1 (c & H2 & H3)]|[H1 [H2 H3]]]].
        -- left. split; [exact H1|right; exact H2].
        -- right. left. split; [exact H1|]. exists c. split; [right; exact H2|exact H3].
        -- right. right. repeat split; try assumption.
           apply not_elem_of_cons. split; [congruence|exact H2].
Qed.

Lemma cons_ok_passo pre acc rem :
  cons_ok pre acc → cons_ok (pre ++ [rem]) (acumular (chave_de rem) rem acc).
Proof.
  intros (Hnd & Hval & Hcob & Hlen).
  set (k := chave_de rem).
  assert (Hfora : k ∉ acc.*1 → ∀ x, x ∈ pre → mesma_chave k x = false).
  { intros Hk x Hx. apply bool_decide_eq_false. intros Heq.
    apply Hk. rewrite <- Heq. apply Hcob, Hx. }
  split; [|split; [|split]].
  - destruct (decide (k ∈ acc.*1)) as [Hk|Hk].
    + rewrite (proj1 (acumular_presente k rem acc Hk)). exact Hnd.
    + rewrite (acumular_ausente k rem acc Hk), fmap_app. simpl.
      apply NoDup_app. split; [exact Hnd|]. split.
      * intros x Hx Hx'. apply list_elem_of_singleton in Hx'. subst x. contradiction.
      * apply NoDup_singleton.
  - intros k' c' Hin.
    destruct (acumular_elem _ _ _ _ _ Hnd Hin)
      as [[Hne Hacc]|[[-> (c & Hacc & ->)]|[-> [Hk ->]]]].
    + destruct (Hval _ _ Hacc) as (H1 & H2 & r0 & H3 & H4).
      split; [exact H1|]. split.
      * rewrite List.filter_app, map_app, soma_app. simpl.
        unfold mesma_chave at 2. fold k.
        rewrite bool_decide_eq_false_2 by congruence. simpl. rewrite H2. lra.
      * exists r0. split; [apply find_app_some, H3|exact H4].
    + destruct (Hval _ _ Hacc) as (H1 & H2 & r0 & H3 & H4).
      split; [exact H1|]. split.
      * rewrite List.filter_app, map_app, soma_app. simpl.
        unfold mesma_chave at 2. fold k.
        rewrite bool_decide_eq_true_2 by reflexivity. simpl. rewrite H2. lra.
      * exists r0. split; [apply find_app_some, H3|exact H4].
    + split; [reflexivity|]. split.
      * rewrite List.filter_app, map_app, soma_app.
        rewrite (filtrar_nenhum _ _ (Hfora Hk)). simpl.
        unfold mesma_chave. fold k.
        rewrite bool_decide_eq_true_2 by reflexivity. simpl. lra.
      * exists rem. split; [|repeat split].
        rewrite find_app_none by apply (find_nenhum _ _ (Hfora Hk)). simpl.
        unfold mesma_chave. fold k.
        rewrite bool_decide_eq_true_2 by reflexivity. reflexivity.
  - intros x Hx. apply elem_of_app in Hx as [Hx|Hx].
    + destruct (decide (k ∈ acc.*1)) as [Hk|Hk].
      * rewrite (proj1 (acumular_presente k rem acc Hk)). apply Hcob, Hx.
      * rewrite (acumular_ausente k rem acc Hk), fmap_app.
        apply elem_of_app. left. apply Hcob, Hx.
    + apply list_elem_of_singleton in Hx. subst x. fold k.
      destruct (decide (k ∈ acc.*1)) as [Hk|Hk].
      * rewrite (proj1 (acumular_presente k rem acc Hk)). exact Hk.
      * rewrite (acumular_ausente k rem acc Hk), fmap_app.
        apply elem_of_app. right. simpl. left.
  - rewrite length_app. simpl.
    destruct (decide (k ∈ acc.*1)) as [Hk|Hk].
    + rewrite (proj2 (acumular_presente k rem acc Hk)). lia.
    + rewrite (acumular_ausente k rem acc Hk), length_app. simpl. lia.
Qed.

Lemma consolidar_ok (rems : list Remanejamento) : cons_ok rems (consolidar rems).
Proof.
  unfold consolidar.
  assert (H : ∀ l pre acc, cons_ok pre acc →
                cons_ok (pre ++ l)
                  (fold_left (λ consolidados rem, acumular (chave_de rem) rem consolidados)
                     l acc)).
  { induction l as [|rem l IH]; intros pre acc Hok; simpl.
    - rewrite app_nil_r. exact Hok.
    - replace (pre ++ rem :: l) with ((pre ++ [rem]) ++ l)
        by (rewrite <- app_assoc; reflexivity).
      apply IH, cons_ok_passo, Hok. }
  apply (H rems [] []).
  split; [constructor|].
  split; [intros k c Hin; inversion Hin|].
  split; [intros rem Hin; inversion Hin|].
  simpl. lia.
Qed.

(** C6.  The consolidated sheet has exactly one row per key (Fonte, UG
    Origem, Natureza Origem, UG Destino, Natureza Destino) of the committed
    records; the row's [Valor] is the sum of the [Valor] of the records with
    that key, its [Tipo] and nature names are those of the first record with
    that key, there are no more rows than records, and the ledger is left as
    it was. *)
Theorem C6_consolidacao (st : Estado) :
  let linhas := (gerar_aba_remanejamento st).1 in
  let registros := remanejamentos st in
  (∀ c, c ∈ linhas →
     k_Valor c ==
       soma (map r_Valor (List.filter (mesma_chave (chave_do_consolidado c)) registros))
     ∧ ∃ r0, find (mesma_chave (chave_do_consolidado c)) registros = Some r0
             ∧ descreve c r0)
  ∧ NoDup (chave_do_consolidado <$> linhas)
  ∧ (∀ rem, rem ∈ registros → chave_de rem ∈ chave_do_consolidado <$> linhas)
  ∧ (length linhas ≤ length registros)%nat
  ∧ (gerar_aba_remanejamento st).2 = st.
Proof.
  intros linhas registros. subst linhas registros.
  destruct (consolidar_ok (remanejamentos st)) as (Hnd & Hval & Hcob & Hlen).
  assert (Hch : chave_do_consolidado <$> (consolidar (remanejamentos st)).*2 =
                (consolidar (remanejamentos st)).*1).
  { rewrite <- list_fmap_compose. apply list_fmap_ext.
    intros i [k c] Hlk. simpl. apply Hval.
    apply list_elem_of_lookup. exists i. exact Hlk. }
  unfold gerar_aba_remanejamento.
  destruct (remanejamentos st) as [|r0 rs] eqn:Hrems.
  - simpl. repeat split.
    + inversion H.
    + inversion H.
    + constructor.
    + intros rem Hin. inversion Hin.
    + lia.
  - cbn [fst snd]. rewrite Hch. repeat split.
    + apply list_elem_of_fmap in H as ([k c'] & -> & Hin). simpl.
      destruct (Hval _ _ Hin) as (H1 & H2 & _). rewrite H1. exact H2.
    + apply list_elem_of_fmap in H as ([k c'] & -> & Hin). simpl.
      destruct (Hval _ _ Hin) as (H1 & _ & H3). rewrite H1. exact H3.
    + exact Hnd.
    + exact Hcob.
    + rewrite length_fmap. exact Hlen.
Qed.

(** ** The sweep that keeps the need up to date

    [varrer_abatendo] (the same-prefix sweep of the internal pass and both
    sweeps of the external pass) never commits more than the need it starts
    with, in the exact arithmetic of the embedding: what the deficit nature
    receives during the sweep is at most the decrease of the need, and the
    need stays non-negative. *)

Definition recebido_por (d : Ref) (st : Estado) : Q := exato (recebe d) (pares st).

Lemma registrar_recebido ug_o o ug_d d v t st :
  length (remanejamentos st) = length (historico st) → 0 <= v →
  let st' := registrar_transferencia ug_o o ug_d d v t st in
  length (remanejamentos st') = length (historico st')
  ∧ recebido_por d st <= recebido_por d st'
  ∧ recebido_por d st' <= recebido_por d st + v.
Proof.
  intros Hlen Hv st'. subst st'.
  destruct (obter (ugs_dados st) o) as [no|] eqn:Hno.
  2:{ rewrite registrar_fora by auto. repeat split; [exact Hlen|lra..]. }
  destruct (obter (ugs_dados st) d) as [nd|] eqn:Hnd.
  2:{ rewrite registrar_fora by auto. repeat split; [exact Hlen|lra..]. }
  destruct (rejeitada_dec no nd v) as [Hrej|Hok].
  { rewrite (registrar_rejeita _ _ _ _ _ _ _ _ _ Hno Hnd Hrej).
    repeat split; [exact Hlen|lra..]. }
  rewrite (registrar_aceita _ _ _ _ _ _ _ _ _ Hno Hnd Hok).
  unfold recebido_por, pares. cbn [remanejamentos historico].
  rewrite zip_with_app by exact Hlen. fold (pares st). cbn [zip_with].
  rewrite exato_snoc.
  assert (Hr : ∀ reg, recebe d (reg, {| c_origem := o; c_destino := d; c_valor := v |}) = true)
    by (intros reg; apply bool_decide_eq_true_2; reflexivity).
  rewrite Hr. cbn [snd c_valor].
  repeat split; [rewrite !length_app; simpl; lia|lra..].
Qed.

Lemma varrer_abatendo_nao_excede t ug_o ug_d d doadoras need vt st :
  length (remanejamentos st) = length (historico st) → 0 <= need →
  let r := varrer_abatendo t ug_o ug_d d doadoras need vt st in
  length (remanejamentos r.2) = length (historico r.2)
  ∧ 0 <= r.1.1
  ∧ recebido_por d r.2 - recebido_por d st <= need - r.1.1.
Proof.
  revert need vt st. induction doadoras as [|s resto IH]; intros need vt st Hlen Hneed; simpl.
  - repeat split; [exact Hlen|lra..].
  - destruct (Qle_bool need (1 # 100)) eqn:E1; simpl.
    { repeat split; [exact Hlen|lra..]. }
    destruct (Qle_bool (capacidade_de st s) (1 # 100)) eqn:E2.
    { apply IH; assumption. }
    apply Qle_bool_gt in E1, E2.
    set (v := Qmin need (capacidade_de st s)).
    assert (Hv : 0 <= v ∧ v <= need).
    { subst v. destruct (Q.min_spec need (capacidade_de st s)) as [[? ->]|[? ->]];
        split; lra. }
    destruct (registrar_recebido ug_o s ug_d d v t st Hlen (proj1 Hv)) as (H1 & H2 & H3).
    destruct (IH (need - v) (Some v) _ H1) as (H4 & H5 & H6); [lra|].
    repeat split; [exact H4|exact H5|lra].
Qed.

(** ** What [validar_resultado] reports *)

Lemma validar_resultado_caracterizacao (st : Estado) :
  (nenhum_saldo_negativo (validar_resultado st) = true ↔
   ∀ ug n, ug ∈ ugs_dados st → n ∈ naturezas ug → marca_negativo n = false)
  ∧ (somas_conferem (validar_resultado st) = true ↔ remanejamentos st ≠ []).
Proof.
  unfold validar_resultado. simpl. split.
  - rewrite negb_true_iff, <- not_true_iff_false, existsb_exists. split.
    + intros H ug n Hug Hn. apply not_true_iff_false. intros Hm. apply H.
      exists ug. split; [apply list_elem_of_In, Hug|].
      apply existsb_exists. exists n. split; [apply list_elem_of_In, Hn|exact Hm].
    + intros H (ug & Hug & Hex). apply existsb_exists in Hex as (n & Hn & Hm).
      apply list_elem_of_In in Hug, Hn. rewrite (H ug n Hug Hn) in Hm. discriminate.
  - destruct (remanejamentos st) as [|reg regs]; simpl; split; intros H.
    + discriminate.
    + contradiction.
    + discriminate.
    + reflexivity.
Qed.

Lemma marca_negativo_sse (n : Natureza) :
  marca_negativo n = true ↔
  1 # 100 < Qabs (saldo_atual n - saldo_original n)
  ∧ saldo_original n < 0 ∧ saldo_atual n < - (1 # 100).
Proof.
  unfold marca_negativo. rewrite !andb_true_iff, !Qltb_lt. tauto.
Qed.

(** ** Excluded natures *)

(** A nature whose unit is on the prohibited fund, or that is itself on the
    prohibited fund or a prohibited nature, ends the run exactly as it was
    parsed and is on neither side of any committed transfer. *)
Lemma excluida_nao_participa coluna_saldo linhas r u n :
  let st := estado_de (processar_arquivo coluna_saldo linhas) in
  ugs_dados st !! r.1 = Some u → naturezas u !! r.2 = Some n →
  ug_fonte u = FONTE_PROIBIDA ∨ fonte n = FONTE_PROIBIDA
    ∨ codigo_limpo (codigo n) ∈ NATUREZAS_PROIBIDAS →
  obter (identificar_estrutura linhas) r = Some n
  ∧ ∀ c, c ∈ historico st → c_origem c ≠ r ∧ c_destino c ≠ r.
Proof.
  destruct coluna_saldo as [coluna|]; [|simpl; discriminate].
  intros st Hu Hn Hexc.
  destruct (final_historico coluna linhas) as [HE Hinv]. fold st in HE, Hinv.
  assert (Hobt : obter (ugs_dados st) r = Some n).
  { unfold obter. rewrite Hu. exact Hn. }
  assert (Hlado : ∀ a b c, ¬ lado_ok (esqueleto (ugs_dados st)) r a b c).
  { intros a b c Hl.
    apply lado_ok_obter in Hl as (u' & n' & Hu' & Hn' & _ & _ & _ & _ & H1 & H2 & H3).
    rewrite Hu in Hu'. injection Hu' as <-. rewrite Hn in Hn'. injection Hn' as <-.
    tauto. }
  split.
  - rewrite <- Hobt. symmetry. apply (final_intocada coluna linhas).
    intros cod He. rewrite <- HE in He.
    apply (Hlado cod (codigo n) (nome n)).
    apply elegivel_lado_ok; assumption.
  - intros c Hc. rewrite <- HE in Hinv.
    destruct (Forall2_elem_r _ _ _ _ Hinv Hc) as (reg & _ & Ho & Hd & _).
    split; intros Heq; rewrite Heq in *; eapply Hlado; eassumption.
Qed.

End Processador.

(** * Closed instances *)

(** C10.  With no prohibited fund configured, a nature whose unit has no
    fund, or that has no fund itself, ends the run exactly as it was parsed
    (deficit identification and both passes skipped it) and is neither the
    source nor the destination of any committed transfer. *)
Theorem C10_sem_fonte_nao_participa
    (naturezas_proibidas : gset string) coluna_saldo linhas r u n :
  let st := estado_de (processar_arquivo None naturezas_proibidas coluna_saldo linhas) in
  ugs_dados st !! r.1 = Some u → naturezas u !! r.2 = Some n →
  ug_fonte u = None ∨ fonte n = None →
  obter (identificar_estrutura linhas) r = Some n
  ∧ ∀ c, c ∈ historico st → c_origem c ≠ r ∧ c_destino c ≠ r.
Proof.
  intros st Hu Hn Hf.
  eapply excluida_nao_participa; [exact Hu|exact Hn|tauto].
Qed.

(** ** Concrete runs *)

(** Prohibited fund 761, no prohibited nature, balance column found at index 6. *)
Definition fonte_761 : option Z := Some 761%Z.
Definition sem_proibidas : gset string := ∅.
Definition coluna_6 : option nat := Some 6%nat.

(** Unit 450201 (fund 500): a surplus of 1000 and a deficit of 200. *)
Definition linhas_alpha : list Linha :=
  [ LinhaUG "450201" "ALPHA" 800 500;
    LinhaNatureza "319011" "Pay" 1000 0;
    LinhaNatureza "339018" "Svc" (-200) 0 ].

Definition nat_pay : Natureza :=
  {| codigo := "319011"; nome := "Pay"; saldo_original := 1000; saldo_atual := 1000;
     dois_primeiros_digitos := "31"; fonte := Some 500%Z; necessidade_total := None |}.

Definition nat_svc : Natureza :=
  {| codigo := "339018"; nome := "Svc"; saldo_original := -200; saldo_atual := -200;
     dois_primeiros_digitos := "33"; fonte := Some 500%Z; necessidade_total := None |}.

(** The first scenario of the specification: one internal transfer of 200,
    after which the donor holds 800 and the deficit nature 0. *)
Example cenario_alpha :
  ∃ saida st no nd,
    processar_arquivo fonte_761 sem_proibidas coluna_6 linhas_alpha = Retorna saida st
    ∧ map (λ c, (k_Tipo c, k_Natureza_Origem c, k_Natureza_Destino c, Qred (k_Valor c)))
          (aba_remanejamento saida)
      = [(Interna_unica, "319011", "339018", 200)]
    ∧ obter (ugs_dados st) (0, 0)%nat = Some no ∧ saldo_atual no == 800
    ∧ obter (ugs_dados st) (0, 1)%nat = Some nd ∧ saldo_atual nd == 0.
Proof.
  eexists _, _, _, _.
  split; [vm_compute; reflexivity|].
  repeat split; vm_compute; reflexivity.
Qed.

(** The second scenario: a deficit of 500 whose only donor, of another
    prefix, may give 150 (40% of 375); one internal transfer of 150, and a
    need of 350 is left for the external pass. *)
Definition linhas_parcial : list Linha :=
  [ LinhaUG "450201" "ALPHA" (-125) 500;
    LinhaNatureza "319011" "Pay" 375 0;
    LinhaNatureza "339018" "Svc" (-500) 0 ].

Example cenario_parcial :
  let st0 := (identificar_deficits fonte_761 sem_proibidas (estado_inicial linhas_parcial)).2 in
  let st1 := estado_de (remanejamento_interno fonte_761 sem_proibidas st0) in
  ∃ nd,
    map (λ r, (r_Tipo r, r_Natureza_Origem r, r_Natureza_Destino r, Qred (r_Valor r)))
        (remanejamentos st1)
    = [(Interna, "319011", "339018", 150)]
    ∧ obter (ugs_dados st1) (0, 1)%nat = Some nd
    ∧ saldo_atual nd == -350
    ∧ necessidade_ou_saldo nd == 350.
Proof.
  intros st0 st1. eexists.
  split; [vm_compute; reflexivity|].
  split; [vm_compute; reflexivity|].
  split; vm_compute; reflexivity.
Qed.

(** The same scenario with a donor of the deficit's own prefix: the amount is
    taken off the need in the first sweep (line 471) and once more by line
    491 after the second sweep, so the recorded need is 200 while 350 are
    still uncovered. *)
Definition linhas_parcial_mesmo_prefixo : list Linha :=
  [ LinhaUG "450201" "ALPHA" (-125) 500;
    LinhaNatureza "339030" "Mat" 375 0;
    LinhaNatureza "339018" "Svc" (-500) 0 ].

Example cenario_parcial_mesmo_prefixo :
  let st0 := (identificar_deficits fonte_761 sem_proibidas
                (estado_inicial linhas_parcial_mesmo_prefixo)).2 in
  let st1 := estado_de (remanejamento_interno fonte_761 sem_proibidas st0) in
  ∃ nd,
    map (λ r, (r_Tipo r, r_Natureza_Origem r, r_Natureza_Destino r, Qred (r_Valor r)))
        (remanejamentos st1)
    = [(Interna_mesmos_digitos, "339030", "339018", 150)]
    ∧ obter (ugs_dados st1) (0, 1)%nat = Some nd
    ∧ saldo_atual nd == -350
    ∧ necessidade_ou_saldo nd == 200.
Proof.
  intros st0 st1. eexists.
  split; [vm_compute; reflexivity|].
  split; [vm_compute; reflexivity|].
  split; vm_compute; reflexivity.
Qed.

(** The third scenario: unit A needs 100, unit B (same fund) can give, unit C
    is on the prohibited fund 761 and never donates. *)
Definition linhas_externo : list Linha :=
  [ LinhaUG "450201" "A" (-100) 500;
    LinhaNatureza "339018" "Svc" (-100) 0;
    LinhaUG "450202" "B" 750 500;
    LinhaNatureza "319011" "Pay" 750 0;
    LinhaUG "450203" "C" 1000 761;
    LinhaNatureza "319011" "Pay" 1000 0 ].

Example cenario_externo :
  ∃ saida st,
    processar_arquivo fonte_761 sem_proibidas coluna_6 linhas_externo = Retorna saida st
    ∧ map (λ r, (r_Tipo r, r_UG_Origem r, r_UG_Destino r, Qred (r_Valor r)))
          (remanejamentos st)
      = [(Externa, "450202", "450201", 100)]
    ∧ remanejamentos_externos (estatisticas saida) = 1%nat.
Proof.
  eexists _, _.
  split; [vm_compute; reflexivity|].
  split; vm_compute; reflexivity.
Qed.

(** C1 at a concrete call: 200 from Pay to Svc in the parsed ledger. *)
Lemma C1_registrar_transferencia_witness :
  let st := estado_inicial linhas_alpha in
  let st' := registrar_transferencia sem_proibidas "450201" (0, 0)%nat "450201" (0, 1)%nat
               200 Interna_unica st in
  obter (ugs_dados st) (0, 0)%nat = Some nat_pay
  ∧ obter (ugs_dados st) (0, 1)%nat = Some nat_svc
  ∧ ∃ registro, remanejamentos st' = remanejamentos st ++ [registro]
                ∧ r_Valor registro = round2 200.
Proof.
  intros st st'.
  assert (Ho : obter (ugs_dados st) (0, 0)%nat = Some nat_pay) by (vm_compute; reflexivity).
  assert (Hd : obter (ugs_dados st) (0, 1)%nat = Some nat_svc) by (vm_compute; reflexivity).
  split; [exact Ho|]. split; [exact Hd|].
  destruct (C1_registrar_transferencia sem_proibidas "450201" (0, 0)%nat "450201" (0, 1)%nat
              200 Interna_unica st nat_pay nat_svc Ho Hd) as [_ H].
  destruct H as (_ & _ & _ & registro & H1 & H2 & _).
  - unfold rejeitada, sem_proibidas. simpl.
    intros [H|[H|[H|[H|[H|H]]]]]; try lra; set_solver.
  - exists registro. split; assumption.
Defined.

(** C4 as stated fails on any deficit nature: the capacity 0 exceeds 40% of a
    negative original balance. *)
Lemma C4_capacidade_doacao_contraexemplo :
  ¬ (calcular_capacidade_doacao nat_svc <= (40 # 100) * saldo_original nat_svc).
Proof.
  vm_compute. intros H. apply H. reflexivity.
Qed.

(** C7 at the donor of the first scenario. *)
Lemma C7_saldo_final_witness :
  let st := estado_de (processar_arquivo fonte_761 sem_proibidas coluna_6 linhas_alpha) in
  ∃ n, obter (ugs_dados st) (0, 0)%nat = Some n
       ∧ saldo_atual n
         = fold_left (efeito (0, 0)%nat) (historico st) (saldo_original n).
Proof.
  intros st. eexists. split; [vm_compute; reflexivity|].
  refine (proj1 (C7_saldo_final fonte_761 sem_proibidas coluna_6 linhas_alpha
                   (0, 0)%nat _ _)).
  vm_compute. reflexivity.
Defined.

(** A deficit of 0.123: the donor's balance drops by 0.123 while the record
    says 0.12. *)
Definition linhas_milesimos : list Linha :=
  [ LinhaUG "450201" "ALPHA" 1000 500;
    LinhaNatureza "319011" "Pay" 1000 0;
    LinhaNatureza "339018" "Svc" (- (123 # 1000)) 0 ].

(** C7 as stated, over the [Valor] fields of the records, fails. *)
Lemma C7_saldo_final_contraexemplo :
  let st := estado_de (processar_arquivo fonte_761 sem_proibidas coluna_6 linhas_milesimos) in
  ∃ n, obter (ugs_dados st) (0, 0)%nat = Some n
       ∧ ¬ (saldo_atual n ==
            saldo_original n + registrado (recebe (0, 0)%nat) (pares st)
            - registrado (doa (0, 0)%nat) (pares st)).
Proof.
  intros st. eexists. split; [vm_compute; reflexivity|].
  vm_compute. intros H. discriminate H.
Qed.

(** A unit without fund, no prohibited fund configured. *)
Definition linhas_sem_fonte : list Linha :=
  [ LinhaUG "450201" "ALPHA" 800 0;
    LinhaNatureza "319011" "Pay" 1000 0;
    LinhaNatureza "339018" "Svc" (-200) 0 ].

Definition nat_svc_sem_fonte : Natureza :=
  {| codigo := "339018"; nome := "Svc"; saldo_original := -200; saldo_atual := -200;
     dois_primeiros_digitos := "33"; fonte := None; necessidade_total := None |}.

Definition ug_sem_fonte : UG :=
  {| ug_codigo := "450201"; ug_nome := "ALPHA"; ug_saldo_total := 800; ug_fonte := None;
     naturezas :=
       [ {| codigo := "319011"; nome := "Pay"; saldo_original := 1000; saldo_atual := 1000;
            dois_primeiros_digitos := "31"; fonte := None; necessidade_total := None |};
         nat_svc_sem_fonte ] |}.

(** C10 at the deficit nature of that unit. *)
Lemma C10_sem_fonte_nao_participa_witness :
  let st := estado_de (processar_arquivo None sem_proibidas coluna_6 linhas_sem_fonte) in
  ugs_dados st !! 0%nat = Some ug_sem_fonte
  ∧ obter (identificar_estrutura linhas_sem_fonte) (0, 1)%nat = Some nat_svc_sem_fonte
  ∧ ∀ c, c ∈ historico st → c_origem c ≠ (0, 1)%nat ∧ c_destino c ≠ (0, 1)%nat.
Proof.
  intros st.
  assert (Hu : ugs_dados st !! 0%nat = Some ug_sem_fonte) by (vm_compute; reflexivity).
  split; [exact Hu|].
  apply (C10_sem_fonte_nao_participa sem_proibidas coluna_6 linhas_sem_fonte
           (0, 1)%nat ug_sem_fonte nat_svc_sem_fonte Hu).
  - reflexivity.
  - left. reflexivity.
Defined.

(** ** Where the code departs from the claims *)

(** A unit whose only nature is a deficit of 100: nothing can cover it. *)
Definition linhas_deficit_sozinho : list Linha :=
  [ LinhaUG "450201" "ALPHA" (-100) 500;
    LinhaNatureza "339018" "Svc" (-100) 0 ].

(** C2.  [validar_resultado] sets [tem_negativo] only under the test
    [abs(diferenca) > 0.01]: a deficit nature that received nothing is not
    flagged, and the run reports [nenhum_saldo_negativo] although a nature
    with a negative original balance still stands at -100. *)
Theorem C2_deficit_intocado_nao_marcado :
  ∃ saida st n,
    processar_arquivo fonte_761 sem_proibidas coluna_6 linhas_deficit_sozinho
      = Retorna saida st
    ∧ nenhum_saldo_negativo (validacoes saida) = true
    ∧ somas_conferem (validacoes saida) = false
    ∧ remanejamentos st = []
    ∧ obter (ugs_dados st) (0, 0)%nat = Some n
    ∧ saldo_original n < 0
    ∧ saldo_atual n < - (1 # 100)
    ∧ marca_negativo n = false.
Proof.
  eexists _, _, _.
  split; [vm_compute; reflexivity|].
  repeat split; vm_compute; reflexivity.
Qed.

(** A deficit of 100 and three donors of another prefix, 100 each: no donor
    can cover 100 alone (each may give 40). *)
Definition linhas_tres_doadoras : list Linha :=
  [ LinhaUG "450201" "ALPHA" 200 500;
    LinhaNatureza "339018" "Svc" (-100) 0;
    LinhaNatureza "319011" "Aa" 100 0;
    LinhaNatureza "319012" "Bb" 100 0;
    LinhaNatureza "319013" "Cc" 100 0 ].

(** C3.  In the sweep over the other-prefix donors of the internal pass the
    statement [necessidade_restante -= valor_transferir] stands after the
    loop (line 491), not in it: each donor is asked for
    [min(need, capacity)] of the same need.  Here the need is 100 and the
    internal pass commits 40 three times, 120 in all, leaving the deficit
    nature at +20 with a recorded need of 60. *)
Theorem C3_varredura_secundaria_excede :
  let st0 := (identificar_deficits fonte_761 sem_proibidas
                (estado_inicial linhas_tres_doadoras)).2 in
  let st1 := estado_de (remanejamento_interno fonte_761 sem_proibidas st0) in
  ∃ nd nd',
    obter (ugs_dados st0) (0, 0)%nat = Some nd
    ∧ necessidade_ou_saldo nd == 100
    ∧ map (λ c, (c_origem c, c_destino c, Qred (c_valor c))) (historico st1)
      = [ ((0%nat, 1%nat), (0%nat, 0%nat), 40);
          ((0%nat, 2%nat), (0%nat, 0%nat), 40);
          ((0%nat, 3%nat), (0%nat, 0%nat), 40) ]
    ∧ exato (recebe (0, 0)%nat) (pares st1) == 120
    ∧ obter (ugs_dados st1) (0, 0)%nat = Some nd'
    ∧ saldo_atual nd' == 20
    ∧ necessidade_ou_saldo nd' == 60.
Proof.
  intros st0 st1. eexists _, _.
  split; [vm_compute; reflexivity|].
  split; [vm_compute; reflexivity|].
  split; [vm_compute; reflexivity|].
  split; [vm_compute; reflexivity|].
  split; [vm_compute; reflexivity|].
  split; vm_compute; reflexivity.
Qed.

(** A deficit of 100 and one donor holding 0.01, whose capacity (0.004) is
    below the 0.01 threshold of both sweeps. *)
Definition linhas_doadora_minima : list Linha :=
  [ LinhaUG "450201" "ALPHA" (-100) 500;
    LinhaNatureza "339018" "Svc" (-100) 0;
    LinhaNatureza "319011" "Aa" (1 # 100) 0 ].

(** C8.  The header was found and one unit was identified, yet the run
    aborts: no donor passes the threshold, so [valor_transferir] is never
    assigned, and line 491 reads it. *)
Theorem C8_passo_interno_levanta :
  ∃ st,
    processar_arquivo fonte_761 sem_proibidas coluna_6 linhas_doadora_minima
      = Levanta VariavelNaoAtribuida st
    ∧ length (identificar_estrutura linhas_doadora_minima) = 1%nat
    ∧ remanejamentos st = [].
Proof.
  eexists. split; [vm_compute; reflexivity|].
  split; reflexivity.
Qed.

(** * Further properties of the engine *)

Section Extensoes.

Variable FONTE_PROIBIDA : option Z.
Variable NATUREZAS_PROIBIDAS : gset string.

Local Abbreviation processar := (processar_arquivo FONTE_PROIBIDA NATUREZAS_PROIBIDAS).
Local Abbreviation registrar := (registrar_transferencia NATUREZAS_PROIBIDAS).
Local Abbreviation elegivel' := (elegivel FONTE_PROIBIDA NATUREZAS_PROIBIDAS).


(** ** A finer invariant rule: what is known at each call

    Besides eligibility, every call of [registrar_transferencia] made by the
    passes is on a destination whose original balance is negative, with an
    amount above 0.01 that does not exceed the donor's capacity at that
    moment; in the internal pass both natures are in the same unit, in the
    external pass the two units have different codes and the same fund; the
    kind passed tells whether the two natures share their first two digits.
    Every assignment to ['necessidade_total'] is of a value that is not
    negative, on an eligible nature whose original balance is negative. *)

(** A nature with a non-negative original balance holds at least the reserve. *)
Definition inv_reserva (st : Estado) : Prop :=
  ∀ r n, obter (ugs_dados st) r = Some n →
         0 <= saldo_original n →
         saldo_original n * PERCENTUAL_RESERVA_MINIMA <= saldo_atual n.

Definition eh_interna (t : Tipo) : bool :=
  match t with
  | Interna_unica | Interna_mesmos_digitos | Interna => true
  | Externa_mesmos_digitos | Externa => false
  end.

Definition fonte_em (E : list UG) (i : nat) : option Z :=
  match E !! i with
  | Some u => ug_fonte u
  | None => None
  end.

Definition vinculo (E : list UG) (interno : bool) (o d : Ref) : Prop :=
  if interno then o.1 = d.1
  else codigo_em E o.1 ≠ codigo_em E d.1 ∧ fonte_em E o.1 = fonte_em E d.1.

Definition negativa (E : list UG) (d : Ref) : Prop :=
  ∃ n, obter E d = Some n ∧ saldo_original n < 0.

Definition digitos_em (E : list UG) (r : Ref) : string :=
  match obter E r with
  | Some n => dois_primeiros_digitos n
  | None => EmptyString
  end.

(** What the kind of a transfer says about the first two digits of the two
    codes. *)
Definition prefixo (E : list UG) (t : Tipo) (o d : Ref) : Prop :=
  match t with
  | Interna_unica => True
  | Interna_mesmos_digitos | Externa_mesmos_digitos => digitos_em E o = digitos_em E d
  | Interna | Externa => digitos_em E o ≠ digitos_em E d
  end.

Definition chamada (E : list UG) (st : Estado) (ug_o : string) (o : Ref)
    (ug_d : string) (d : Ref) (v : Q) (t : Tipo) : Prop :=
  elegivel' E ug_o o ∧ elegivel' E ug_d d ∧ negativa E d
  ∧ vinculo E (eh_interna t) o d
  ∧ 1 # 100 < v ∧ v <= capacidade_de st o
  ∧ prefixo E t o d.

Lemma inv_reserva_registrar ug_o o ug_d d v t st :
  inv_reserva st → inv_reserva (registrar ug_o o ug_d d v t st).
Proof.
  intros Hinv.
  destruct (obter (ugs_dados st) o) as [no|] eqn:Hno.
  2:{ rewrite registrar_fora by auto. exact Hinv. }
  destruct (obter (ugs_dados st) d) as [nd|] eqn:Hnd.
  2:{ rewrite registrar_fora by auto. exact Hinv. }
  destruct (rejeitada_dec NATUREZAS_PROIBIDAS no nd v) as [Hrej|Hok].
  { rewrite (registrar_rejeita _ _ _ _ _ _ _ _ _ _ Hno Hnd Hrej). exact Hinv. }
  pose proof (aceita_distintas _ _ _ _ _ _ _ Hno Hnd Hok) as Hne.
  rewrite (registrar_aceita _ _ _ _ _ _ _ _ _ _ Hno Hnd Hok).
  intros r n. simpl. unfold creditar, debitar. rewrite !obter_alterar.
  unfold rejeitada in Hok.
  destruct (decide (d = r)) as [<-|Hd].
  - destruct (decide (o = d)) as [Heq|_]; [contradiction|].
    rewrite Hnd. simpl. intros Hn. injection Hn as <-. simpl. intros Hso.
    exfalso. apply Hok. right. left. exact Hso.
  - destruct (decide (o = r)) as [<-|Ho].
    + rewrite Hno. simpl. intros Hn. injection Hn as <-. simpl. intros _.
      apply Qnot_lt_le. tauto.
    + apply Hinv.
Qed.

Lemma inv_reserva_necessidade v r st :
  inv_reserva st → inv_reserva (definir_necessidade v r st).
Proof.
  intros Hinv r' n. simpl. rewrite obter_alterar.
  destruct (decide (r = r')) as [<-|Hne]; [|apply Hinv].
  destruct (obter (ugs_dados st) r) as [n0|] eqn:Hn0; [|discriminate].
  simpl. intros Hn. injection Hn as <-. simpl. apply (Hinv _ _ Hn0).
Qed.

Lemma inv_reserva_negativa (st : Estado) (r : Ref) (n : Natureza) :
  inv_reserva st → obter (ugs_dados st) r = Some n → saldo_atual n < 0 →
  negativa (esqueleto (ugs_dados st)) r.
Proof.
  intros Hinv Hn Hsa. exists (esqueleto_nat n).
  rewrite obter_esqueleto, Hn. split; [reflexivity|]. simpl.
  destruct (Qlt_le_dec (saldo_original n) 0) as [H|H]; [exact H|].
  specialize (Hinv _ _ Hn H). unfold PERCENTUAL_RESERVA_MINIMA in Hinv. lra.
Qed.

Lemma selecionar_obter (p : Natureza → bool) (i : nat) (u : UG) (ugs : list UG) :
  ugs !! i = Some u →
  Forall (λ r, r.1 = i ∧ ∃ n, obter ugs r = Some n ∧ p n = true) (selecionar p i u).
Proof.
  intros Hu. apply Forall_forall. intros r Hr.
  apply selecionar_elem in Hr as [H1 (n & H2 & H3)].
  split; [exact H1|]. exists n. unfold obter. rewrite H1, Hu. auto.
Qed.

Lemma digitos_em_esqueleto (st : Estado) (r : Ref) :
  digitos_em (esqueleto (ugs_dados st)) r = digitos_de st r.
Proof.
  unfold digitos_em, digitos_de. rewrite obter_esqueleto.
  destruct (obter (ugs_dados st) r); reflexivity.
Qed.

Lemma Forall_filtrar_sse {A} (R : A → Prop) (f : A → bool) (l : list A) :
  Forall R l → Forall (λ x, R x ∧ f x = true) (List.filter f l).
Proof.
  induction 1 as [|x l Hx Hl IH]; simpl; [constructor|].
  destruct (f x) eqn:Hf; [constructor; [split; assumption|exact IH]|exact IH].
Qed.

Lemma prioritarias_digitos (R : Ref → Prop) st digitos doadoras :
  Forall R doadoras →
  Forall (λ s, R s ∧ digitos_de st s = digitos) (prioritarias st digitos doadoras).
Proof.
  intros H. apply Forall_ordenar_desc.
  eapply Forall_impl; [apply Forall_filtrar_sse, H|].
  intros s [H1 H2]. split; [exact H1|]. apply String.eqb_eq, H2.
Qed.

Lemma secundarias_digitos (R : Ref → Prop) st digitos doadoras :
  Forall R doadoras →
  Forall (λ s, R s ∧ digitos_de st s ≠ digitos) (secundarias st digitos doadoras).
Proof.
  intros H. apply Forall_ordenar_desc.
  eapply Forall_impl; [apply Forall_filtrar_sse, H|].
  intros s [H1 H2]. split; [exact H1|].
  apply String.eqb_neq, negb_true_iff, H2.
Qed.

Section RegraChamadas.

Variable E : list UG.
Variable P : Estado → Prop.

Hypothesis P_registrar : ∀ st ug_o o ug_d d v t,
  esqueleto (ugs_dados st) = E → inv_reserva st → P st →
  chamada E st ug_o o ug_d d v t →
  P (registrar ug_o o ug_d d v t st).

Hypothesis P_necessidade : ∀ st v r cod,
  esqueleto (ugs_dados st) = E → P st → elegivel' E cod r → negativa E r → 0 <= v →
  P (definir_necessidade v r st).

Definition Bom2 (st : Estado) : Prop :=
  esqueleto (ugs_dados st) = E ∧ inv_reserva st ∧ P st.

Lemma bom2_registrar ug_o o ug_d d v t st :
  Bom2 st → chamada E st ug_o o ug_d d v t → Bom2 (registrar ug_o o ug_d d v t st).
Proof.
  intros (HE & Hr & HP) Hc. split; [|split].
  - rewrite esqueleto_registrar. exact HE.
  - apply inv_reserva_registrar, Hr.
  - apply P_registrar; assumption.
Qed.

Lemma bom2_necessidade v r cod st :
  Bom2 st → elegivel' E cod r → negativa E r → 0 <= v →
  Bom2 (definir_necessidade v r st).
Proof.
  intros (HE & Hr & HP) He Hneg Hv. split; [|split].
  - rewrite esqueleto_definir_necessidade. exact HE.
  - apply inv_reserva_necessidade, Hr.
  - eapply P_necessidade; eassumption.
Qed.

(** What a sweep needs to know about its donors and its deficit nature. *)
Definition doadora_base (interno : bool) (ug_o : string) (d : Ref) (s : Ref) : Prop :=
  elegivel' E ug_o s ∧ vinculo E interno s d.

Definition doadora_ok (t : Tipo) (ug_o : string) (d : Ref) (s : Ref) : Prop :=
  elegivel' E ug_o s ∧ vinculo E (eh_interna t) s d ∧ prefixo E t s d.

Lemma doadoras_do_prefixo (t_pri t_sec : Tipo) (interno : bool) ug_o d nd st doadoras :
  esqueleto (ugs_dados st) = E →
  obter (ugs_dados st) d = Some nd →
  eh_interna t_pri = interno → eh_interna t_sec = interno →
  prefixo E t_pri = (λ o d, digitos_em E o = digitos_em E d) →
  prefixo E t_sec = (λ o d, digitos_em E o ≠ digitos_em E d) →
  Forall (doadora_base interno ug_o d) doadoras →
  Forall (doadora_ok t_pri ug_o d) (prioritarias st (dois_primeiros_digitos nd) doadoras)
  ∧ Forall (doadora_ok t_sec ug_o d) (secundarias st (dois_primeiros_digitos nd) doadoras).
Proof.
  intros HE Hnd Hi1 Hi2 Hp1 Hp2 Hs.
  assert (Hdig : digitos_em E d = dois_primeiros_digitos nd).
  { rewrite <- HE, digitos_em_esqueleto. unfold digitos_de. rewrite Hnd. reflexivity. }
  assert (HdE : ∀ s, digitos_em E s = digitos_de st s).
  { intros s. rewrite <- HE. apply digitos_em_esqueleto. }
  split.
  - eapply Forall_impl; [apply prioritarias_digitos, Hs|].
    intros s [[H1 H2] H3]. split; [exact H1|]. rewrite Hi1. split; [exact H2|].
    rewrite Hp1, HdE, Hdig. exact H3.
  - eapply Forall_impl; [apply secundarias_digitos, Hs|].
    intros s [[H1 H2] H3]. split; [exact H1|]. rewrite Hi2. split; [exact H2|].
    rewrite Hp2, HdE, Hdig. exact H3.
Qed.

Definition receptora_ok (ug_d : string) (d : Ref) : Prop :=
  elegivel' E ug_d d ∧ negativa E d.

Lemma bom2_varrer_abatendo t ug_o ug_d d doadoras need vt st :
  Bom2 st → Forall (doadora_ok t ug_o d) doadoras → receptora_ok ug_d d →
  Bom2 (varrer_abatendo NATUREZAS_PROIBIDAS t ug_o ug_d d doadoras need vt st).2.
Proof.
  intros Hb Hf [Hd Hneg]. revert need vt st Hb.
  induction Hf as [|s resto (Hs & Hv & Hp) Hr IH]; intros need vt st Hb; simpl.
  - exact Hb.
  - destruct (Qle_bool need (1 # 100)) eqn:E1; [exact Hb|].
    destruct (Qle_bool (capacidade_de st s) (1 # 100)) eqn:E2; [apply IH, Hb|].
    apply Qle_bool_gt in E1, E2.
    apply IH, bom2_registrar; [exact Hb|].
    repeat split; try assumption.
    + destruct (Q.min_spec need (capacidade_de st s)) as [[? ->]|[? ->]]; lra.
    + apply Q.le_min_r.
Qed.

Lemma bom2_varrer_sem_abater t ug_o ug_d d doadoras need vt st :
  Bom2 st → Forall (doadora_ok t ug_o d) doadoras → receptora_ok ug_d d →
  Bom2 (varrer_sem_abater NATUREZAS_PROIBIDAS t ug_o ug_d d doadoras need vt st).2.
Proof.
  intros Hb Hf [Hd Hneg]. revert vt st Hb.
  induction Hf as [|s resto (Hs & Hv & Hp) Hr IH]; intros vt st Hb; simpl.
  - exact Hb.
  - destruct (Qle_bool need (1 # 100)) eqn:E1; [exact Hb|].
    destruct (Qle_bool (capacidade_de st s) (1 # 100)) eqn:E2; [apply IH, Hb|].
    apply Qle_bool_gt in E1, E2.
    apply IH, bom2_registrar; [exact Hb|].
    repeat split; try assumption.
    + destruct (Q.min_spec need (capacidade_de st s)) as [[? ->]|[? ->]]; lra.
    + apply Q.le_min_r.
Qed.

Lemma bom2_cobrir_deficit_interno ug_cod superavitarias d vt st :
  Bom2 st → Forall (doadora_base true ug_cod d) superavitarias → receptora_ok ug_cod d →
  Bom2 (estado_de (cobrir_deficit_interno NATUREZAS_PROIBIDAS ug_cod superavitarias d vt st)).
Proof.
  intros Hb Hs Hd. unfold cobrir_deficit_interno.
  destruct (obter (ugs_dados st) d) as [nd|] eqn:Hnd; [|exact Hb].
  destruct (Qle_bool (necessidade_ou_saldo nd) (1 # 100)) eqn:E1; [exact Hb|].
  apply Qle_bool_gt in E1.
  destruct (doadoras_do_prefixo Interna_mesmos_digitos Interna true ug_cod d nd st
              superavitarias (proj1 Hb) Hnd eq_refl eq_refl eq_refl eq_refl Hs)
    as [Hpri Hsec].
  pose proof (Forall_prioritarias _ st (dois_primeiros_digitos nd) _ Hs) as Hpri0.
  pose proof (Forall_secundarias _ st (dois_primeiros_digitos nd) _ Hs) as Hsec0.
  simpl. destruct (find _ _) as [unica|] eqn:Hfind.
  - simpl. destruct Hd as [Hd Hneg].
    apply (bom2_necessidade _ _ ug_cod); [|exact Hd|exact Hneg|apply Q.le_max_l].
    apply bom2_registrar; [exact Hb|].
    apply find_some in Hfind as [Hin Hcap]. apply list_elem_of_In in Hin.
    apply Qle_bool_iff in Hcap.
    pose proof (Forall_app_2 _ _ _ Hpri0 Hsec0) as Hall.
    rewrite Forall_forall in Hall. destruct (Hall _ Hin) as [H1 H2].
    unfold chamada. simpl. repeat split; assumption.
  - pose proof (bom2_varrer_abatendo Interna_mesmos_digitos ug_cod ug_cod d _
                  (necessidade_ou_saldo nd) vt st Hb Hpri Hd) as H1.
    destruct (varrer_abatendo _ _ _ _ _ _ _ _ _) as [[need1 vt1] st1]. simpl in H1.
    pose proof (bom2_varrer_sem_abater Interna ug_cod ug_cod d _
                  need1 vt1 st1 H1 Hsec Hd) as H2.
    destruct (varrer_sem_abater _ _ _ _ _ _ _ _ _) as [vt2 st2]. simpl in H2.
    destruct vt2; simpl; [|exact H2].
    destruct Hd as [Hd Hneg].
    apply (bom2_necessidade _ _ ug_cod); [exact H2|exact Hd|exact Hneg|apply Q.le_max_l].
Qed.

Lemma bom2_cobrir_deficits_internos ug_cod superavitarias deficitarias vt st :
  Bom2 st →
  Forall (λ d, receptora_ok ug_cod d ∧ Forall (doadora_base true ug_cod d) superavitarias)
         deficitarias →
  Bom2 (estado_de (cobrir_deficits_internos NATUREZAS_PROIBIDAS ug_cod superavitarias
                     deficitarias vt st)).
Proof.
  intros Hb Hd. revert vt st Hb.
  induction Hd as [|d resto [Hd Hs] Hr IH]; intros vt st Hb; simpl.
  - exact Hb.
  - pose proof (bom2_cobrir_deficit_interno ug_cod superavitarias d vt st Hb Hs Hd) as H1.
    destruct (cobrir_deficit_interno _ _ _ _ _ _) as [vt' st'|e st']; simpl in *.
    + apply IH, H1.
    + exact H1.
Qed.

Lemma bom2_interno_ug i vt st :
  Bom2 st →
  Bom2 (estado_de (remanejamento_interno_ug FONTE_PROIBIDA NATUREZAS_PROIBIDAS i vt st)).
Proof.
  intros Hb. unfold remanejamento_interno_ug.
  destruct (ugs_dados st !! i) as [ug|] eqn:Hu; [|exact Hb].
  destruct (fonte_eh_proibida FONTE_PROIBIDA (ug_fonte ug)) eqn:Hf; [exact Hb|].
  set (pd := λ n, Qltb (saldo_atual n) 0 && nao_excluida FONTE_PROIBIDA NATUREZAS_PROIBIDAS n).
  set (ps := λ n, Qltb 0 (saldo_atual n) && nao_excluida FONTE_PROIBIDA NATUREZAS_PROIBIDAS n).
  pose proof (selecionar_elegivel FONTE_PROIBIDA NATUREZAS_PROIBIDAS pd
                i ug _ Hu Hf (nao_excluida_de_e _ _ _)) as Hdef.
  pose proof (selecionar_elegivel FONTE_PROIBIDA NATUREZAS_PROIBIDAS ps
                i ug _ Hu Hf (nao_excluida_de_e _ _ _)) as Hsup.
  pose proof (selecionar_obter pd i ug _ Hu) as Hdef2.
  pose proof (selecionar_obter ps i ug _ Hu) as Hsup2.
  destruct Hb as (HE & Hres & HP). rewrite HE in Hdef, Hsup.
  assert (Hall : Forall (λ d, receptora_ok (ug_codigo ug) d
                   ∧ Forall (doadora_base true (ug_codigo ug) d) (selecionar ps i ug))
                   (selecionar pd i ug)).
  { rewrite Forall_forall in Hdef, Hdef2. apply Forall_forall. intros d Hd.
    destruct (Hdef2 d Hd) as [Hd1 (n & Hn & Hp)].
    split; [split; [apply Hdef, Hd|]|].
    - rewrite <- HE. apply (inv_reserva_negativa st d n Hres Hn).
      unfold pd in Hp. apply andb_true_iff in Hp as [Hp _]. apply Qltb_lt, Hp.
    - rewrite Forall_forall in Hsup, Hsup2. apply Forall_forall. intros s Hs.
      split; [apply Hsup, Hs|]. simpl.
      destruct (Hsup2 s Hs) as [Hs1 _]. congruence. }
  destruct (selecionar pd i ug) as [|d ds]; [repeat split; assumption|].
  destruct (selecionar ps i ug) as [|s ss]; [repeat split; assumption|].
  apply bom2_cobrir_deficits_internos; [repeat split; assumption|exact Hall].
Qed.

Lemma bom2_interno_desde indices vt st :
  Bom2 st →
  Bom2 (estado_de (remanejamento_interno_desde FONTE_PROIBIDA NATUREZAS_PROIBIDAS
                     indices vt st)).
Proof.
  revert vt st. induction indices as [|i resto IH]; intros vt st Hb; simpl.
  - exact Hb.
  - pose proof (bom2_interno_ug i vt st Hb) as H1.
    destruct (remanejamento_interno_ug _ _ i vt st) as [vt' st'|e st']; simpl in *.
    + apply IH, H1.
    + exact H1.
Qed.

Lemma bom2_interno st :
  Bom2 st → Bom2 (estado_de (remanejamento_interno FONTE_PROIBIDA NATUREZAS_PROIBIDAS st)).
Proof.
  intros Hb. unfold remanejamento_interno.
  pose proof (bom2_interno_desde (seq 0 (length (ugs_dados st))) None st Hb) as H1.
  destruct (remanejamento_interno_desde _ _ _ _ _); exact H1.
Qed.

Lemma bom2_fold {A} (f : Estado → A → Estado) (R : A → Prop) (l : list A) (st : Estado) :
  (∀ st x, Bom2 st → R x → Bom2 (f st x)) →
  Forall R l → Bom2 st → Bom2 (fold_left f l st).
Proof.
  intros Hf Hl. revert st. induction Hl as [|x l Hx Hl IH]; intros st Hb; simpl.
  - exact Hb.
  - apply IH, Hf; assumption.
Qed.

Definition info_doadora_ok2 (ug_deficit : nat) (fonte_deficitaria : option Z)
    (ud : InfoDoadora) : Prop :=
  Forall (λ s, elegivel' E (codigo_em E (dd_ug ud)) s ∧ s.1 = dd_ug ud)
         (dd_naturezas_super ud)
  ∧ codigo_em E (dd_ug ud) ≠ codigo_em E ug_deficit
  ∧ fonte_em E (dd_ug ud) = fonte_deficitaria.

Definition info_deficit_ok2 (info : InfoDeficit) : Prop :=
  Forall (λ d, receptora_ok (codigo_em E (id_ug info)) d ∧ d.1 = id_ug info)
         (id_naturezas_deficit info)
  ∧ id_fonte info = fonte_em E (id_ug info).

Lemma fonte_em_lookup (ugs : list UG) (i : nat) (ug : UG) :
  ugs !! i = Some ug → fonte_em (esqueleto ugs) i = ug_fonte ug.
Proof.
  intros H. unfold fonte_em. rewrite esqueleto_lookup, H. reflexivity.
Qed.

Lemma ugs_doadoras_ok2 st ug_deficit fonte_deficitaria :
  esqueleto (ugs_dados st) = E →
  Forall (info_doadora_ok2 ug_deficit fonte_deficitaria)
         (ugs_doadoras FONTE_PROIBIDA NATUREZAS_PROIBIDAS st ug_deficit fonte_deficitaria).
Proof.
  intros HE. apply Forall_forall. intros ud Hud. unfold ugs_doadoras in Hud.
  apply list_elem_of_omap in Hud as (x & Hx & Hid). simpl in Hid. subst x.
  apply elem_of_lookup_imap_1 in Hx as (k & ug & Heq & Hk).
  unfold info_doadora in Heq.
  destruct (fonte_eh_proibida FONTE_PROIBIDA (ug_fonte ug)) eqn:Hf; [discriminate|].
  destruct (negb (bool_decide (ug_fonte ug = fonte_deficitaria))) eqn:Hfd; [discriminate|].
  destruct (String.eqb (ug_codigo ug) (codigo_da_ug st ug_deficit)) eqn:Hcd; [discriminate|].
  apply negb_false_iff, bool_decide_eq_true in Hfd.
  apply String.eqb_neq in Hcd. rewrite codigo_da_ug_esqueleto, HE in Hcd.
  set (ps := λ n, Qltb 0 (saldo_atual n) && nao_excluida FONTE_PROIBIDA NATUREZAS_PROIBIDAS n) in *.
  pose proof (selecionar_elegivel FONTE_PROIBIDA NATUREZAS_PROIBIDAS ps
                k ug _ Hk Hf (nao_excluida_de_e _ _ _)) as Hsel.
  pose proof (selecionar_obter ps k ug _ Hk) as Hsel2.
  rewrite HE in Hsel.
  destruct (selecionar ps k ug) as [|s ss] eqn:Hs; [discriminate|].
  injection Heq as ->. unfold info_doadora_ok2. simpl.
  rewrite <- HE, (codigo_em_lookup _ _ _ Hk), (fonte_em_lookup _ _ _ Hk), HE.
  split; [|split; assumption].
  rewrite Forall_forall in Hsel, Hsel2. apply Forall_forall. intros r Hr.
  split; [apply Hsel, Hr|apply (Hsel2 r Hr)].
Qed.

Lemma ugs_deficitarias_ok2 st :
  esqueleto (ugs_dados st) = E →
  Forall info_deficit_ok2 (ugs_deficitarias FONTE_PROIBIDA NATUREZAS_PROIBIDAS st).
Proof.
  intros HE. apply Forall_forall. intros info Hinfo. unfold ugs_deficitarias in Hinfo.
  apply list_elem_of_omap in Hinfo as (x & Hx & Hid). simpl in Hid. subst x.
  apply elem_of_lookup_imap_1 in Hx as (k & ug & Heq & Hk).
  unfold info_deficit in Heq.
  destruct (fonte_eh_proibida FONTE_PROIBIDA (ug_fonte ug)) eqn:Hf; [discriminate|].
  set (pd := deficit_residual FONTE_PROIBIDA NATUREZAS_PROIBIDAS) in *.
  assert (Hp : ∀ n, pd n = true →
                    nao_excluida FONTE_PROIBIDA NATUREZAS_PROIBIDAS n = true).
  { intros n Hn. unfold pd, deficit_residual in Hn. unfold nao_excluida.
    apply andb_true_iff in Hn as [Hn H2]. apply andb_true_iff in Hn as [Hn H1].
    rewrite H1, H2. reflexivity. }
  pose proof (selecionar_elegivel FONTE_PROIBIDA NATUREZAS_PROIBIDAS pd k ug _ Hk Hf Hp)
    as Hsel.
  pose proof (selecionar_obter pd k ug _ Hk) as Hsel2.
  rewrite HE in Hsel.
  destruct (selecionar pd k ug) as [|s ss] eqn:Hs; [discriminate|].
  injection Heq as ->. unfold info_deficit_ok2. simpl.
  rewrite <- HE, (codigo_em_lookup _ _ _ Hk), (fonte_em_lookup _ _ _ Hk), ?HE.
  split; [|reflexivity].
  rewrite Forall_forall in Hsel, Hsel2. apply Forall_forall. intros r Hr.
  destruct (Hsel2 r Hr) as [Hr1 (n & Hn & Hpn)].
  split; [split; [apply Hsel, Hr|]|exact Hr1].
  exists (esqueleto_nat n). rewrite <- HE, obter_esqueleto, Hn.
  split; [reflexivity|]. simpl.
  unfold pd, deficit_residual in Hpn.
  apply andb_true_iff in Hpn as [Hpn _]. apply andb_true_iff in Hpn as [Hpn _].
  apply andb_true_iff in Hpn as [Hpn _]. apply Qltb_lt, Hpn.
Qed.

Lemma bom2_percorrer_doadoras ug_d d nd0 st0 doadoras need st :
  esqueleto (ugs_dados st0) = E → obter (ugs_dados st0) d = Some nd0 →
  Bom2 st → Forall (info_doadora_ok2 d.1 (fonte_em E d.1)) doadoras → receptora_ok ug_d d →
  Bom2 (percorrer_doadoras NATUREZAS_PROIBIDAS ug_d d (dois_primeiros_digitos nd0)
          doadoras need st).2.
Proof.
  intros HE0 Hnd0 Hb Hf Hd. revert need st Hb.
  induction Hf as [|ud resto (Hud & Hcod' & Hfon) Hr IH]; intros need st Hb; simpl.
  - exact Hb.
  - destruct (Qle_bool need (1 # 100)); [exact Hb|].
    assert (Hcod : codigo_da_ug st (dd_ug ud) = codigo_em E (dd_ug ud)).
    { rewrite codigo_da_ug_esqueleto. destruct Hb as [-> _]. reflexivity. }
    rewrite Hcod.
    assert (Hdo : Forall (doadora_base false (codigo_em E (dd_ug ud)) d)
                    (dd_naturezas_super ud)).
    { eapply Forall_impl; [exact Hud|]. intros s [Hs1 Hs2].
      split; [exact Hs1|]. simpl. rewrite Hs2. split; assumption. }
    assert (Hnd : ∃ nd, obter (ugs_dados st) d = Some nd
                        ∧ dois_primeiros_digitos nd = dois_primeiros_digitos nd0).
    { assert (H : obter (esqueleto (ugs_dados st)) d = Some (esqueleto_nat nd0)).
      { rewrite (proj1 Hb), <- HE0, obter_esqueleto, Hnd0. reflexivity. }
      rewrite obter_esqueleto in H.
      destruct (obter (ugs_dados st) d) as [nd|]; [|discriminate].
      simpl in H. injection H as _ _ _ H _. exists nd. split; [reflexivity|exact H]. }
    destruct Hnd as (nd & Hnd & Hdig). rewrite <- Hdig.
    destruct (doadoras_do_prefixo Externa_mesmos_digitos Externa false
                (codigo_em E (dd_ug ud)) d nd st (dd_naturezas_super ud)
                (proj1 Hb) Hnd eq_refl eq_refl eq_refl eq_refl Hdo) as [Hpri Hsec].
    pose proof (bom2_varrer_abatendo Externa_mesmos_digitos (codigo_em E (dd_ug ud)) ug_d d
                  (prioritarias st (dois_primeiros_digitos nd) (dd_naturezas_super ud))
                  need None st Hb Hpri Hd) as H1.
    destruct (varrer_abatendo _ Externa_mesmos_digitos _ _ _ _ _ _ _) as [[need1 vt1] st1].
    simpl in H1.
    pose proof (bom2_varrer_abatendo Externa (codigo_em E (dd_ug ud)) ug_d d
                  (secundarias st (dois_primeiros_digitos nd) (dd_naturezas_super ud))
                  need1 vt1 st1 H1 Hsec Hd) as H2.
    destruct (varrer_abatendo _ Externa _ _ _ _ _ _ _) as [[need2 vt2] st2].
    simpl in H2. rewrite Hdig. apply IH, H2.
Qed.

Lemma bom2_cobrir_deficit_externo ug_d doadoras st d :
  Bom2 st → Forall (info_doadora_ok2 d.1 (fonte_em E d.1)) doadoras → receptora_ok ug_d d →
  Bom2 (cobrir_deficit_externo NATUREZAS_PROIBIDAS ug_d doadoras st d).
Proof.
  intros Hb Hf Hd. unfold cobrir_deficit_externo.
  destruct (obter (ugs_dados st) d) as [nd|] eqn:Hnd; [|exact Hb].
  destruct (Qle_bool (necessidade_ou_saldo nd) (1 # 100)); [exact Hb|].
  pose proof (bom2_percorrer_doadoras ug_d d nd st doadoras
                (necessidade_ou_saldo nd) st (proj1 Hb) Hnd Hb Hf Hd) as H1.
  destruct (percorrer_doadoras _ _ _ _ _ _ _) as [need' st']. simpl in H1.
  destruct Hd as [Hd Hneg].
  apply (bom2_necessidade _ _ ug_d); [exact H1|exact Hd|exact Hneg|apply Q.le_max_l].
Qed.

Lemma bom2_externo_ug st info :
  Bom2 st → info_deficit_ok2 info →
  Bom2 (remanejamento_externo_ug FONTE_PROIBIDA NATUREZAS_PROIBIDAS st info).
Proof.
  intros Hb [Hinfo Hfon]. unfold remanejamento_externo_ug.
  pose proof (ugs_doadoras_ok2 st (id_ug info) (id_fonte info) (proj1 Hb)) as Hdo.
  destruct (ugs_doadoras _ _ st (id_ug info) (id_fonte info)) as [|ud uds]; [exact Hb|].
  assert (Hcod : codigo_da_ug st (id_ug info) = codigo_em E (id_ug info)).
  { rewrite codigo_da_ug_esqueleto. destruct Hb as [-> _]. reflexivity. }
  rewrite Hcod.
  apply (bom2_fold _ (λ d, receptora_ok (codigo_em E (id_ug info)) d ∧ d.1 = id_ug info));
    [|exact Hinfo|exact Hb].
  intros st' d Hb' [Hd Hd1]. apply bom2_cobrir_deficit_externo; [exact Hb'| |exact Hd].
  rewrite Hd1, <- Hfon. apply Forall_ordenar_desc, Hdo.
Qed.

Lemma bom2_externo st :
  Bom2 st → Bom2 (remanejamento_externo FONTE_PROIBIDA NATUREZAS_PROIBIDAS st).
Proof.
  intros Hb. unfold remanejamento_externo.
  apply (bom2_fold _ info_deficit_ok2); [|apply ugs_deficitarias_ok2, Hb|exact Hb].
  intros st' info Hb' Hinfo. apply bom2_externo_ug; assumption.
Qed.

Lemma bom2_anotar_deficit st r cod :
  Bom2 st → elegivel' E cod r → negativa E r → Bom2 (anotar_deficit st r).
Proof.
  intros Hb Hr Hneg. unfold anotar_deficit.
  destruct (obter (ugs_dados st) r); [|exact Hb].
  apply (bom2_necessidade _ _ cod); [exact Hb|exact Hr|exact Hneg|apply Qabs_nonneg].
Qed.

Lemma bom2_identificar_deficits st :
  Bom2 st → Bom2 (identificar_deficits FONTE_PROIBIDA NATUREZAS_PROIBIDAS st).2.
Proof.
  intros Hb. unfold identificar_deficits.
  assert (H : ∀ l acc, Bom2 acc.2 →
                Bom2 (fold_left (identificar_deficits_ug FONTE_PROIBIDA NATUREZAS_PROIBIDAS)
                        l acc).2).
  { induction l as [|i l IH]; intros acc Hacc; simpl; [exact Hacc|].
    apply IH. destruct acc as [total st']. simpl in *.
    destruct (ugs_dados st' !! i) as [ug|] eqn:Hu; [|exact Hacc].
    destruct (fonte_eh_proibida FONTE_PROIBIDA (ug_fonte ug)) eqn:Hf; [exact Hacc|]. simpl.
    set (pd := deficit_elegivel FONTE_PROIBIDA NATUREZAS_PROIBIDAS).
    assert (Hp : ∀ n, pd n = true →
                      nao_excluida FONTE_PROIBIDA NATUREZAS_PROIBIDAS n = true).
    { intros n Hn. unfold pd, deficit_elegivel in Hn. unfold nao_excluida.
      apply andb_true_iff in Hn as [Hn H2]. apply andb_true_iff in Hn as [Hn H1].
      rewrite H1, H2. reflexivity. }
    pose proof (selecionar_elegivel FONTE_PROIBIDA NATUREZAS_PROIBIDAS pd i ug _ Hu Hf Hp)
      as Hsel.
    pose proof (selecionar_obter pd i ug _ Hu) as Hsel2.
    rewrite (proj1 Hacc) in Hsel.
    apply (bom2_fold _ (λ r, elegivel' E (ug_codigo ug) r ∧ negativa E r)); [| |exact Hacc].
    - intros st'' r Hb'' [Hr Hneg]. apply (bom2_anotar_deficit _ _ (ug_codigo ug)); assumption.
    - rewrite Forall_forall in Hsel, Hsel2. apply Forall_forall. intros r Hr.
      split; [apply Hsel, Hr|].
      destruct (Hsel2 r Hr) as [_ (n & Hn & Hpn)].
      exists (esqueleto_nat n). rewrite <- (proj1 Hacc), obter_esqueleto, Hn.
      split; [reflexivity|]. simpl. unfold pd, deficit_elegivel in Hpn.
      apply andb_true_iff in Hpn as [Hpn _]. apply andb_true_iff in Hpn as [Hpn _].
      apply Qltb_lt, Hpn. }
  apply H. exact Hb.
Qed.

Lemma inv_reserva_inicial (linhas : list Linha) : inv_reserva (estado_inicial linhas).
Proof.
  intros r n Hn Hso. simpl in Hn.
  apply identificar_estrutura_frescas in Hn as [-> _].
  unfold PERCENTUAL_RESERVA_MINIMA. lra.
Qed.

Lemma bom2_processar_arquivo coluna linhas :
  E = esqueleto (identificar_estrutura linhas) →
  P (estado_inicial linhas) →
  Bom2 (estado_de (processar (Some coluna) linhas)).
Proof.
  intros HE Pini. unfold processar_arquivo.
  assert (Hb : Bom2 (estado_inicial linhas)).
  { split; [symmetry; exact HE|]. split; [apply inv_reserva_inicial|exact Pini]. }
  destruct (length (ugs_dados (estado_inicial linhas)) =? 0)%nat; [exact Hb|].
  apply bom2_identificar_deficits in Hb.
  destruct (identificar_deficits _ _ (estado_inicial linhas)) as [total st1]. simpl in Hb.
  apply bom2_interno in Hb.
  destruct (remanejamento_interno _ _ st1) as [[] st2|e st2]; simpl in Hb; [|apply Hb].
  apply bom2_externo in Hb.
  unfold gerar_aba_remanejamento.
  destruct (remanejamentos (remanejamento_externo _ _ st2)); simpl; apply Hb.
Qed.

End RegraChamadas.

(** ** Balances stay within their bounds *)

Definition inv_limites (st : Estado) : Prop :=
  ∀ r n, obter (ugs_dados st) r = Some n →
         (0 <= saldo_original n → saldo_atual n <= saldo_original n)
         ∧ (saldo_original n < 0 → saldo_original n <= saldo_atual n).

Lemma inv_limites_registrar ug_o o ug_d d v t st :
  0 <= v → inv_limites st → inv_limites (registrar ug_o o ug_d d v t st).
Proof.
  intros Hv Hinv.
  destruct (obter (ugs_dados st) o) as [no|] eqn:Hno.
  2:{ rewrite registrar_fora by auto. exact Hinv. }
  destruct (obter (ugs_dados st) d) as [nd|] eqn:Hnd.
  2:{ rewrite registrar_fora by auto. exact Hinv. }
  destruct (rejeitada_dec NATUREZAS_PROIBIDAS no nd v) as [Hrej|Hok].
  { rewrite (registrar_rejeita _ _ _ _ _ _ _ _ _ _ Hno Hnd Hrej). exact Hinv. }
  pose proof (aceita_distintas _ _ _ _ _ _ _ Hno Hnd Hok) as Hne.
  rewrite (registrar_aceita _ _ _ _ _ _ _ _ _ _ Hno Hnd Hok).
  intros r n. simpl. unfold creditar, debitar. rewrite !obter_alterar.
  destruct (decide (d = r)) as [<-|Hd].
  - destruct (decide (o = d)) as [Heq|_]; [contradiction|].
    rewrite Hnd. simpl. intros Hn. injection Hn as <-. simpl.
    destruct (Hinv _ _ Hnd) as [H1 H2]. unfold rejeitada in Hok.
    split; intros H; [exfalso; apply Hok; tauto|]. specialize (H2 H). lra.
  - destruct (decide (o = r)) as [<-|Ho].
    + rewrite Hno. simpl. intros Hn. injection Hn as <-. simpl.
      destruct (Hinv _ _ Hno) as [H1 H2]. unfold rejeitada in Hok.
      split; intros H; [specialize (H1 H); lra|]. exfalso. apply Hok. left. lra.
    + apply Hinv.
Qed.

Lemma inv_limites_necessidade v r st :
  inv_limites st → inv_limites (definir_necessidade v r st).
Proof.
  intros Hinv r' n. simpl. rewrite obter_alterar.
  destruct (decide (r = r')) as [<-|Hne]; [|apply Hinv].
  destruct (obter (ugs_dados st) r) as [n0|] eqn:Hn0; [|discriminate].
  simpl. intros Hn. injection Hn as <-. simpl. apply (Hinv _ _ Hn0).
Qed.

Lemma obter_Forall (R : Natureza → Prop) (ugs : list UG) :
  (∀ r n, obter ugs r = Some n → R n) →
  Forall (λ ug, Forall R (naturezas ug)) ugs.
Proof.
  intros H. apply Forall_lookup. intros i ug Hug.
  apply Forall_lookup. intros j n Hn.
  apply (H (i, j)). unfold obter. simpl. rewrite Hug. exact Hn.
Qed.

(** X1.  In the state any run ends with, a nature whose original balance is
    not negative holds at most that balance and at least the reserve
    [saldo_original * PERCENTUAL_RESERVA_MINIMA], and a nature whose original
    balance is negative holds at least that balance: donors only lose, never
    below the reserve, and deficit natures only gain. *)
Theorem X1_limites_dos_saldos coluna_saldo linhas :
  let st := estado_de (processar coluna_saldo linhas) in
  Forall (λ ug,
    Forall (λ n,
      (0 <= saldo_original n →
         saldo_original n * PERCENTUAL_RESERVA_MINIMA <= saldo_atual n
         ∧ saldo_atual n <= saldo_original n)
      ∧ (saldo_original n < 0 → saldo_original n <= saldo_atual n))
      (naturezas ug))
    (ugs_dados st).
Proof.
  destruct coluna_saldo as [coluna|]; [|constructor].
  intros st. apply obter_Forall. intros r n Hn.
  destruct (bom2_processar_arquivo (esqueleto (identificar_estrutura linhas)) inv_limites)
    with (coluna := coluna) (linhas := linhas) as (_ & Hres & Hlim).
  - intros st0 ug_o o ug_d d v t _ _ H (_ & _ & _ & _ & Hv & _).
    apply inv_limites_registrar; [lra|exact H].
  - intros st0 v r0 cod _ H _ _ _. apply inv_limites_necessidade, H.
  - reflexivity.
  - intros r0 n0 Hn0. simpl in Hn0.
    apply identificar_estrutura_frescas in Hn0 as [-> _]. split; intros; lra.
  - fold st in Hres, Hlim. destruct (Hlim _ _ Hn) as [H1 H2].
    split; [|exact H2]. intros H. split; [apply (Hres _ _ Hn H)|apply H1, H].
Qed.

(** ** Every committed amount *)

Ltac abrir_max a b :=
  let m := fresh "m" in
  let Hm := fresh "Hm" in
  pose proof (Q.max_spec a b) as Hm; set (m := Qmax a b) in *; clearbody m;
  destruct Hm as [[? ?]|[? ?]].

Ltac abrir_min a b :=
  let m := fresh "m" in
  let Hm := fresh "Hm" in
  pose proof (Q.min_spec a b) as Hm; set (m := Qmin a b) in *; clearbody m;
  destruct Hm as [[? ?]|[? ?]].

Ltac abrir_minmax :=
  repeat match goal with
  | |- context [Qmax ?a ?b] => abrir_max a b
  | |- context [Qmin ?a ?b] => abrir_min a b
  | _ : context [Qmax ?a ?b] |- _ => abrir_max a b
  | _ : context [Qmin ?a ?b] |- _ => abrir_min a b
  end.

Lemma capacidade_limite (n : Natureza) :
  0 <= saldo_original n →
  calcular_capacidade_doacao n <= saldo_original n * PERCENTUAL_DOACAO_MAXIMA_POR_VEZ.
Proof.
  intros H. unfold calcular_capacidade_doacao.
  unfold PERCENTUAL_RESERVA_MINIMA, PERCENTUAL_DOACAO_MAXIMA_POR_VEZ.
  destruct (Qle_bool (saldo_atual n) 0); [lra|].
  abrir_minmax; lra.
Qed.

Lemma arredondar_inteiro_piso (y : Q) : (Qfloor y <= arredondar_inteiro y)%Z.
Proof.
  unfold arredondar_inteiro.
  destruct (Qltb _ _); [lia|]. destruct (Qltb _ _); [lia|].
  destruct (Z.even _); lia.
Qed.

Lemma round2_centavo (x : Q) : 1 # 100 <= x → 1 # 100 <= round2 x.
Proof.
  intros H. unfold round2.
  assert (H1 : (1 <= arredondar_inteiro (x * 100))%Z).
  { pose proof (arredondar_inteiro_piso (x * 100)) as Hp.
    assert (Hf : (Qfloor 1 <= Qfloor (x * 100))%Z) by (apply Qfloor_resp_le; lra).
    change (Qfloor 1) with 1%Z in Hf. lia. }
  assert (H2 : 1 <= inject_Z (arredondar_inteiro (x * 100))).
  { change 1 with (inject_Z 1). rewrite <- Zle_Qle. exact H1. }
  unfold Qdiv. change (/ 100) with (1 # 100). lra.
Qed.

(** The amount of a commit is above 0.01 and at most the donor's
    [saldo_original * PERCENTUAL_DOACAO_MAXIMA_POR_VEZ]. *)
Definition valor_ok (E : list UG) (reg : Remanejamento) (c : Commit) : Prop :=
  1 # 100 < c_valor c
  ∧ (∃ no, obter E (c_origem c) = Some no
           ∧ c_valor c <= saldo_original no * PERCENTUAL_DOACAO_MAXIMA_POR_VEZ)
  ∧ r_Valor reg = round2 (c_valor c).

(** X2.  In the state any run ends with, every committed transfer moved more
    than 0.01 and at most [saldo_original * PERCENTUAL_DOACAO_MAXIMA_POR_VEZ]
    of its donor (40% of the original balance), and its record shows a
    [Valor] of at least 0.01. *)
Theorem X2_valores_transferidos coluna_saldo linhas :
  let st := estado_de (processar coluna_saldo linhas) in
  Forall2 (λ reg c,
      1 # 100 < c_valor c
      ∧ (∃ no, obter (ugs_dados st) (c_origem c) = Some no
               ∧ c_valor c <= saldo_original no * PERCENTUAL_DOACAO_MAXIMA_POR_VEZ)
      ∧ 1 # 100 <= r_Valor reg)
    (remanejamentos st) (historico st).
Proof.
  destruct coluna_saldo as [coluna|]; [|constructor].
  intros st.
  set (E := esqueleto (identificar_estrutura linhas)).
  destruct (bom2_processar_arquivo E
              (λ st, Forall2 (valor_ok E) (remanejamentos st) (historico st)))
    with (coluna := coluna) (linhas := linhas) as (HE & _ & H).
  - intros st0 ug_o o ug_d d v t HE0 _ H (Ho & Hd & _ & _ & Hv & Hcap & _).
    rewrite <- HE0 in Ho, Hd.
    destruct (elegivel_obter _ _ _ _ _ Ho) as (uo & no & _ & _ & Hno & _).
    destruct (elegivel_obter _ _ _ _ _ Hd) as (ud & nd & _ & _ & Hnd & _).
    destruct (rejeitada_dec NATUREZAS_PROIBIDAS no nd v) as [Hrej|Hok].
    + rewrite (registrar_rejeita _ _ _ _ _ _ _ _ _ _ Hno Hnd Hrej). exact H.
    + rewrite (registrar_aceita _ _ _ _ _ _ _ _ _ _ Hno Hnd Hok). simpl.
      apply Forall2_app; [exact H|]. constructor; [|constructor].
      split; [exact Hv|]. split; [|reflexivity]. simpl.
      exists (esqueleto_nat no). rewrite <- HE0, obter_esqueleto, Hno.
      split; [reflexivity|]. simpl.
      unfold capacidade_de in Hcap. rewrite Hno in Hcap.
      unfold rejeitada in Hok.
      assert (Hso : 0 <= saldo_original no) by (apply Qlt_le_weak, Qnot_le_lt; tauto).
      pose proof (capacidade_limite no Hso). lra.
  - intros st0 v r cod _ H _ _ _. exact H.
  - reflexivity.
  - constructor.
  - fold st in HE, H. eapply Forall2_impl; [exact H|].
    intros reg c (H1 & (no' & Hno' & H2) & H3).
    split; [exact H1|]. split.
    + rewrite <- HE, obter_esqueleto in Hno'.
      destruct (obter (ugs_dados st) (c_origem c)) as [no|]; [|discriminate].
      simpl in Hno'. injection Hno' as <-. exists no. split; [reflexivity|exact H2].
    + rewrite H3. apply round2_centavo. lra.
Qed.

(** ** Kinds, units and funds of the records *)

Lemma fonte_em_esqueleto (ugs : list UG) (i : nat) :
  fonte_em (esqueleto ugs) i = fonte_em ugs i.
Proof.
  unfold fonte_em. rewrite esqueleto_lookup. destruct (ugs !! i); reflexivity.
Qed.

Lemma elegivel_codigo_em (E : list UG) (cod : string) (r : Ref) :
  elegivel' E cod r → codigo_em E r.1 = cod.
Proof.
  intros (u & n & Hu & _ & Hc & _). unfold codigo_em. rewrite Hu. exact Hc.
Qed.

Definition tipo_ok (E : list UG) (reg : Remanejamento) (c : Commit) : Prop :=
  r_ug_origem reg = r_UG_Origem reg
  ∧ r_ug_destino reg = r_UG_Destino reg
  ∧ r_UG_Origem reg = codigo_em E (c_origem c).1
  ∧ r_UG_Destino reg = codigo_em E (c_destino c).1
  ∧ vinculo E (eh_interna (r_Tipo reg)) (c_origem c) (c_destino c).

Lemma final_tipo coluna linhas :
  let E := esqueleto (identificar_estrutura linhas) in
  let st := estado_de (processar (Some coluna) linhas) in
  esqueleto (ugs_dados st) = E
  ∧ Forall2 (λ reg c, tipo_ok E reg c
                      ∧ prefixo E (r_Tipo reg) (c_origem c) (c_destino c))
      (remanejamentos st) (historico st).
Proof.
  intros E st.
  destruct (bom2_processar_arquivo E
              (λ st, Forall2 (λ reg c, tipo_ok E reg c
                                ∧ prefixo E (r_Tipo reg) (c_origem c) (c_destino c))
                       (remanejamentos st) (historico st)))
    with (coluna := coluna) (linhas := linhas) as (HE & _ & H).
  - intros st0 ug_o o ug_d d v t HE0 _ H (Ho & Hd & _ & Hvin & _ & _ & Hpre).
    pose proof (elegivel_codigo_em _ _ _ Ho) as Hco.
    pose proof (elegivel_codigo_em _ _ _ Hd) as Hcd.
    rewrite <- HE0 in Ho, Hd.
    destruct (elegivel_obter _ _ _ _ _ Ho) as (uo & no & _ & _ & Hno & _).
    destruct (elegivel_obter _ _ _ _ _ Hd) as (ud & nd & _ & _ & Hnd & _).
    destruct (rejeitada_dec NATUREZAS_PROIBIDAS no nd v) as [Hrej|Hok].
    + rewrite (registrar_rejeita _ _ _ _ _ _ _ _ _ _ Hno Hnd Hrej). exact H.
    + rewrite (registrar_aceita _ _ _ _ _ _ _ _ _ _ Hno Hnd Hok). simpl.
      apply Forall2_app; [exact H|]. constructor; [|constructor].
      split; [|exact Hpre]. unfold tipo_ok. simpl. auto.
  - intros st0 v r cod _ H _ _ _. exact H.
  - reflexivity.
  - constructor.
  - split; assumption.
Qed.

(** Whether the two lower-case unit codes of a record are equal, by which
    [processar_arquivo] counts internal and external transfers, is whether
    its kind is an internal one. *)
Lemma tipo_ok_interna (E : list UG) (reg : Remanejamento) (c : Commit) :
  tipo_ok E reg c →
  String.eqb (r_ug_origem reg) (r_ug_destino reg) = eh_interna (r_Tipo reg).
Proof.
  intros (H1 & H2 & H3 & H4 & H5). rewrite H1, H2. unfold vinculo in H5.
  destruct (eh_interna (r_Tipo reg)).
  - apply String.eqb_eq. rewrite H3, H4, H5. reflexivity.
  - destruct H5 as [H5 _]. rewrite <- H3, <- H4 in H5. apply String.eqb_neq, H5.
Qed.

(** X3.  In the state any run ends with: a record of an internal kind joins
    two natures of the same unit and shows the same unit code on both sides;
    a record of an external kind shows two different unit codes, and the two
    units have the same fund.  Hence the comparison of the two unit codes,
    by which the statistics count internal and external transfers, agrees
    with the kind of the record. *)
Theorem X3_tipo_e_unidades coluna_saldo linhas :
  let st := estado_de (processar coluna_saldo linhas) in
  Forall2 (λ reg c,
      (if eh_interna (r_Tipo reg)
       then (c_origem c).1 = (c_destino c).1 ∧ r_UG_Origem reg = r_UG_Destino reg
       else r_UG_Origem reg ≠ r_UG_Destino reg
            ∧ fonte_em (ugs_dados st) (c_origem c).1
              = fonte_em (ugs_dados st) (c_destino c).1)
      ∧ String.eqb (r_ug_origem reg) (r_ug_destino reg) = eh_interna (r_Tipo reg))
    (remanejamentos st) (historico st).
Proof.
  destruct coluna_saldo as [coluna|]; [|constructor].
  intros st. destruct (final_tipo coluna linhas) as [HE H]. fold st in HE, H.
  eapply Forall2_impl; [exact H|].
  intros reg c [Ht _]. split; [|apply (tipo_ok_interna _ _ _ Ht)].
  destruct Ht as (H1 & H2 & H3 & H4 & H5). unfold vinculo in H5.
  destruct (eh_interna (r_Tipo reg)).
  - split; [exact H5|]. rewrite H3, H4, H5. reflexivity.
  - destruct H5 as [H5 H6]. rewrite <- H3, <- H4 in H5. split; [exact H5|].
    rewrite <- (fonte_em_esqueleto (ugs_dados st) (c_origem c).1),
            <- (fonte_em_esqueleto (ugs_dados st) (c_destino c).1), HE.
    exact H6.
Qed.

Definition fonte_ok (E : list UG) (reg : Remanejamento) (c : Commit) : Prop :=
  ∃ no, obter E (c_origem c) = Some no
        ∧ fonte no ≠ FONTE_PROIBIDA
        ∧ (∀ f, fonte no = Some f → r_Fonte reg = Some f)
        ∧ (r_Fonte reg = None → fonte no = None).

(** X4.  In the state any run ends with, the [Fonte] of every record is the
    fund of the source nature whenever that nature has one, and a record
    without [Fonte] comes from a nature without fund; with no prohibited fund
    configured every record has a [Fonte]. *)
Theorem X4_fonte_do_registro coluna_saldo linhas :
  let st := estado_de (processar coluna_saldo linhas) in
  Forall2 (λ reg c,
      ∃ no, obter (ugs_dados st) (c_origem c) = Some no
            ∧ (∀ f, fonte no = Some f → r_Fonte reg = Some f)
            ∧ (r_Fonte reg = None → fonte no = None)
            ∧ (FONTE_PROIBIDA = None → r_Fonte reg ≠ None))
    (remanejamentos st) (historico st).
Proof.
  destruct coluna_saldo as [coluna|]; [|constructor].
  intros st.
  set (E := esqueleto (identificar_estrutura linhas)).
  destruct (bom_processar_arquivo FONTE_PROIBIDA NATUREZAS_PROIBIDAS E
              (λ st, Forall2 (fonte_ok E) (remanejamentos st) (historico st)))
    with (coluna := coluna) (linhas := linhas) as (HE & H).
  - intros st0 ug_o o ug_d d v t HE0 H Ho Hd.
    rewrite <- HE0 in Ho, Hd.
    destruct (elegivel_obter _ _ _ _ _ Ho) as (uo & no & _ & _ & Hno & _ & _ & Hx).
    destruct (elegivel_obter _ _ _ _ _ Hd) as (ud & nd & _ & _ & Hnd & _).
    apply nao_excluida_sse in Hx as [Hx _].
    destruct (rejeitada_dec NATUREZAS_PROIBIDAS no nd v) as [Hrej|Hok].
    + rewrite (registrar_rejeita _ _ _ _ _ _ _ _ _ _ Hno Hnd Hrej). exact H.
    + rewrite (registrar_aceita _ _ _ _ _ _ _ _ _ _ Hno Hnd Hok). simpl.
      apply Forall2_app; [exact H|]. constructor; [|constructor].
      exists (esqueleto_nat no). simpl. rewrite <- HE0, obter_esqueleto, Hno.
      split; [reflexivity|]. simpl. split; [exact Hx|].
      unfold fonte_do_registro. split.
      * intros f Hf. rewrite Hf. reflexivity.
      * destruct (fonte no); [discriminate|reflexivity].
  - intros st0 v r cod _ H _. exact H.
  - reflexivity.
  - constructor.
  - fold st in HE, H. eapply Forall2_impl; [exact H|].
    intros reg c (no' & Hno' & H1 & H2 & H3).
    rewrite <- HE, obter_esqueleto in Hno'.
    destruct (obter (ugs_dados st) (c_origem c)) as [no|]; [|discriminate].
    simpl in Hno'. injection Hno' as <-. simpl in *.
    exists no. repeat split; try assumption.
    intros HFP Hnone. apply H1. rewrite HFP. apply H3, Hnone.
Qed.

(** ** Kinds and the first two digits *)

(** What [identificar_estrutura] stores as ['dois_primeiros_digitos']:
    [codigo[:2]]. *)
Definition prefixada (n : Natureza) : Prop :=
  dois_primeiros_digitos n = substring 0 2 (codigo n).

Lemma identificar_estrutura_prefixadas (linhas : list Linha) (r : Ref) (n : Natureza) :
  obter (identificar_estrutura linhas) r = Some n → prefixada n.
Proof.
  assert (H : ∀ l ugs, Forall (λ u, Forall prefixada (naturezas u)) ugs →
                Forall (λ u, Forall prefixada (naturezas u)) (fold_left identificar_linha l ugs)).
  { induction l as [|x l IH]; intros ugs Hugs; simpl; [exact Hugs|].
    apply IH. destruct x as [c nm sd f|c nm sd f|]; simpl.
    - apply Forall_app. split; [exact Hugs|]. repeat constructor.
    - destruct (last ugs) as [ug_atual|]; [|exact Hugs].
      apply Forall_alter; [exact Hugs|].
      intros u _ Hu. simpl. apply Forall_app. split; [exact Hu|].
      repeat constructor.
    - exact Hugs. }
  specialize (H linhas [] (Forall_nil_2 _)). fold (identificar_estrutura linhas) in H.
  unfold obter. destruct (identificar_estrutura linhas !! r.1) as [u|] eqn:Hu; [|discriminate].
  intros Hn. eapply Forall_lookup_1; [|exact Hn].
  eapply (Forall_lookup_1 _ _ _ _ H Hu).
Qed.

Lemma digitos_em_codigo (linhas : list Linha) (r : Ref) (u : UG) (n : Natureza) :
  let E := esqueleto (identificar_estrutura linhas) in
  E !! r.1 = Some u → naturezas u !! r.2 = Some n →
  digitos_em E r = substring 0 2 (codigo n).
Proof.
  intros E Hu Hn. unfold digitos_em.
  assert (Hobt : obter E r = Some n) by (unfold obter; rewrite Hu; exact Hn).
  rewrite Hobt. unfold E in Hobt. rewrite obter_esqueleto in Hobt.
  destruct (obter (identificar_estrutura linhas) r) as [n0|] eqn:Hn0; [|discriminate].
  simpl in Hobt. injection Hobt as <-. simpl.
  apply (identificar_estrutura_prefixadas _ _ _ Hn0).
Qed.

(** X5.  In the state any run ends with, the kind of a record tells how the
    two nature codes it shows begin: for the kinds "mesmos dígitos" the
    first two characters of the source code and of the destination code are
    the same, for the kinds "Interna" and "Externa" they differ (the kind
    "Interna (única)" is used for either). *)
Theorem X5_tipo_e_prefixo coluna_saldo linhas :
  let st := estado_de (processar coluna_saldo linhas) in
  Forall (λ reg,
      match r_Tipo reg with
      | Interna_unica => True
      | Interna_mesmos_digitos | Externa_mesmos_digitos =>
          substring 0 2 (r_Natureza_Origem reg) = substring 0 2 (r_Natureza_Destino reg)
      | Interna | Externa =>
          substring 0 2 (r_Natureza_Origem reg) ≠ substring 0 2 (r_Natureza_Destino reg)
      end)
    (remanejamentos st).
Proof.
  destruct coluna_saldo as [coluna|]; [|constructor].
  intros st.
  destruct (final_tipo coluna linhas) as [_ Ht]. fold st in Ht.
  destruct (final_historico FONTE_PROIBIDA NATUREZAS_PROIBIDAS coluna linhas) as [_ Hh].
  fold st in Hh. unfold inv_historico in Hh.
  revert Ht Hh. generalize (historico st) as cs. generalize (remanejamentos st) as rs.
  induction rs as [|reg rs IH]; intros cs Ht Hh; [constructor|].
  inversion Ht as [|? c ? cs' [_ Hpre] Ht']; subst.
  inversion Hh as [|? ? ? ? Hc Hh']; subst.
  constructor; [|apply (IH cs'); assumption].
  destruct Hc as ((uo & no & Huo & Hno & _ & Hco & _) & (ud & nd & Hud & Hnd & _ & Hcd & _) & _).
  pose proof (digitos_em_codigo linhas _ _ _ Huo Hno) as Do.
  pose proof (digitos_em_codigo linhas _ _ _ Hud Hnd) as Dd.
  rewrite Hco in Do. rewrite Hcd in Dd.
  unfold prefixo in Hpre. rewrite Do, Dd in Hpre. exact Hpre.
Qed.

(** ** How a run ends *)










(** ** Where ['necessidade_total'] is written *)

















(** ** What a run never changes *)

(** What [identificar_estrutura] builds, besides [prefixada]: a nature
    without fund stands in a unit without fund (line 245 takes the fund of
    the unit when the row has none). *)
Definition fonte_herdada (u : UG) (n : Natureza) : Prop :=
  prefixada n ∧ (fonte n = None → ug_fonte u = None).

Lemma identificar_estrutura_herdadas (linhas : list Linha) :
  Forall (λ u, Forall (fonte_herdada u) (naturezas u)) (identificar_estrutura linhas).
Proof.
  unfold identificar_estrutura.
  assert (H : ∀ l ugs, Forall (λ u, Forall (fonte_herdada u) (naturezas u)) ugs →
                Forall (λ u, Forall (fonte_herdada u) (naturezas u))
                  (fold_left identificar_linha l ugs)).
  { induction l as [|x l IH]; intros ugs Hugs; simpl; [exact Hugs|].
    apply IH. destruct x as [c nm sd f|c nm sd f|]; simpl.
    - apply Forall_app. split; [exact Hugs|]. repeat constructor.
    - destruct (last ugs) as [ug_atual|] eqn:Hlast; [|exact Hugs].
      rewrite last_lookup in Hlast.
      apply Forall_alter; [exact Hugs|].
      intros u Hu Hns. rewrite Hlast in Hu. injection Hu as ->. simpl.
      apply Forall_app. split; [exact Hns|].
      constructor; [|constructor]. split; [reflexivity|].
      simpl. unfold fonte_ou. destruct (Qltb 0 f); [discriminate|auto].
    - exact Hugs. }
  apply H. constructor.
Qed.

Lemma herdadas_esqueleto (ugs ugs0 : list UG) :
  esqueleto ugs = esqueleto ugs0 →
  Forall (λ u, Forall (fonte_herdada u) (naturezas u)) ugs0 →
  Forall (λ u, Forall (fonte_herdada u) (naturezas u)) ugs.
Proof.
  intros HE H0. apply Forall_lookup. intros i u Hu.
  apply Forall_lookup. intros j n Hn.
  assert (H1 : esqueleto ugs !! i = Some (com_naturezas (fmap esqueleto_nat) u))
    by (rewrite esqueleto_lookup, Hu; reflexivity).
  rewrite HE, esqueleto_lookup in H1.
  destruct (ugs0 !! i) as [u0|] eqn:Hu0; [|discriminate].
  simpl in H1. injection H1 as _ _ _ Hf Hns.
  assert (H2 : (esqueleto_nat <$> naturezas u0) !! j = Some (esqueleto_nat n))
    by (rewrite Hns, list_lookup_fmap, Hn; reflexivity).
  rewrite list_lookup_fmap in H2.
  destruct (naturezas u0 !! j) as [n0|] eqn:Hn0; [|discriminate].
  simpl in H2. injection H2 as Hc _ _ Hd Hfn.
  pose proof (Forall_lookup_1 _ _ _ _ (Forall_lookup_1 _ _ _ _ H0 Hu0) Hn0) as [Hp Hh].
  unfold fonte_herdada, prefixada in *. rewrite <- Hc, <- Hd, <- Hfn, <- Hf.
  split; assumption.
Qed.

(** X8.  The state any run ends with differs from the parsed ledger only in
    ['saldo_atual'] and ['necessidade_total']: units and natures, their
    order, codes, names, original balances and funds are the parsed ones
    (without the balance column nothing is parsed).  In it every nature has
    the first two characters of its code as ['dois_primeiros_digitos'], and
    a nature without fund stands in a unit without fund. *)
Theorem X8_estrutura_preservada coluna_saldo linhas :
  let st := estado_de (processar coluna_saldo linhas) in
  match coluna_saldo with
  | None => ugs_dados st = []
  | Some _ => esqueleto (ugs_dados st) = esqueleto (identificar_estrutura linhas)
  end
  ∧ Forall (λ ug,
      Forall (λ n,
        dois_primeiros_digitos n = substring 0 2 (codigo n)
        ∧ (fonte n = None → ug_fonte ug = None))
        (naturezas ug))
      (ugs_dados st).
Proof.
  destruct coluna_saldo as [coluna|]; [|split; [reflexivity|constructor]].
  intros st.
  destruct (final_historico FONTE_PROIBIDA NATUREZAS_PROIBIDAS coluna linhas) as [HE _].
  fold st in HE. split; [exact HE|].
  apply (herdadas_esqueleto _ _ HE), identificar_estrutura_herdadas.
Qed.

(** ** The prohibition test reads a code without its dots and blanks *)

Lemma remover_app (c : ascii) (a b : string) :
  remover c (a ++ b) = (remover c a ++ remover c b)%string.
Proof.
  induction a as [|x a IH]; simpl; [reflexivity|].
  destruct (Ascii.eqb x c); [exact IH|]. simpl. rewrite IH. reflexivity.
Qed.

Lemma codigo_limpo_ponto (a b : string) :
  codigo_limpo (a ++ String "."%char b) = codigo_limpo (a ++ b).
Proof.
  unfold codigo_limpo. rewrite !remover_app. reflexivity.
Qed.

Lemma codigo_limpo_espaco (a b : string) :
  codigo_limpo (a ++ String " "%char b) = codigo_limpo (a ++ b).
Proof.
  unfold codigo_limpo. rewrite !remover_app. reflexivity.
Qed.

(** X9.  [natureza_eh_proibida] gives the same answer for a code and for the
    code with a dot or a blank put in anywhere: "3.3.90.39" and "33 90 39"
    are tested as "339039". *)
Theorem X9_pontos_e_espacos (a b : string) :
  natureza_eh_proibida NATUREZAS_PROIBIDAS (a ++ String "."%char b)
    = natureza_eh_proibida NATUREZAS_PROIBIDAS (a ++ b)
  ∧ natureza_eh_proibida NATUREZAS_PROIBIDAS (a ++ String " "%char b)
    = natureza_eh_proibida NATUREZAS_PROIBIDAS (a ++ b).
Proof.
  unfold natureza_eh_proibida.
  rewrite codigo_limpo_ponto, codigo_limpo_espaco. split; reflexivity.
Qed.

End Extensoes.
